(** * fathon / mfdfa.pyx : the MFDFA session object

    A shallow embedding of the Cython class [MFDFA] of [src/fathon/mfdfa.pyx]
    and the properties of its public methods.

    - Python integers are [Z]; the places where Cython converts one to a C
      [int] (the typed parameters of [cy_computeFlucVec] and of [fitFlucVec],
      the C variables [start] and [end]) are written out as a checked
      conversion that raises [OverflowError], and a sum of two C ints
      ([nMax + 1], [end + 1]) is kept to 32 bits.
    - [float64] values are Rocq's primitive binary64 floats, so NaN, the
      infinities and rounding are those of the program.
    - An attribute declared [np.ndarray] holds [None] until it is assigned:
      it is an [option].
    - A method is a computation over the object: it returns an exception or a
      value, the object as the call left it (an exception does not undo the
      assignments made before it), and the lines it printed.
    - [flucMFDFAForwCompute], [flucMFDFAForwBackwCompute] (cLoops.h),
      [np.log], [np.polyfit] and the [{:.2f}] float format are external to
      the module and are taken as parameters.
    - So is numpy's allocator, for the arrays that [cy_computeFlucVec] makes
      after it has written two attributes: there a [MemoryError] leaves the
      object half written.  Elsewhere memory is taken to suffice. *)

From Stdlib Require Import String DecimalString.
From Stdlib Require Import ZArith List Sorted Bool Lia PrimFloat Uint63.
Import ListNotations.
Open Scope Z_scope.

(** ** Exceptions *)

Inductive exn : Type :=
| ValueError (msg : string)   (* [raise ValueError(msg)], in mfdfa.pyx or by [int] on a NaN *)
| NameError (name : string)   (* an unbound name is evaluated *)
| TypeError                   (* an operation is applied to [None] *)
| IndexError                  (* an index is out of range *)
| OverflowError               (* a Python int does not fit a C int; [int] on an infinity *)
| BroadcastError              (* numpy's ValueError: operands could not be broadcast together *)
| BufferDtypeError            (* Cython's ValueError: an array of another dtype is bound to a
                                 float64 buffer *)
| LinAlgError                 (* raised inside [np.polyfit] *)
| MemoryError.                (* numpy cannot allocate an array *)

(** ** The object *)

Record MFDFA : Type := mkMFDFA {
  n : option (list Z);
  tsVec : list float;
  F : option (list (list float));
  listH : option (list float);
  qList : option (list float);
  nStep : Z;
  isComputed : bool
}.

Definition set_n (v : list Z) (s : MFDFA) : MFDFA :=
  mkMFDFA (Some v) (tsVec s) (F s) (listH s) (qList s) (nStep s) (isComputed s).
Definition set_tsVec (v : list float) (s : MFDFA) : MFDFA :=
  mkMFDFA (n s) v (F s) (listH s) (qList s) (nStep s) (isComputed s).
Definition set_F (v : list (list float)) (s : MFDFA) : MFDFA :=
  mkMFDFA (n s) (tsVec s) (Some v) (listH s) (qList s) (nStep s) (isComputed s).
Definition set_listH (v : list float) (s : MFDFA) : MFDFA :=
  mkMFDFA (n s) (tsVec s) (F s) (Some v) (qList s) (nStep s) (isComputed s).
Definition set_qList (v : list float) (s : MFDFA) : MFDFA :=
  mkMFDFA (n s) (tsVec s) (F s) (listH s) (Some v) (nStep s) (isComputed s).
Definition set_nStep (v : Z) (s : MFDFA) : MFDFA :=
  mkMFDFA (n s) (tsVec s) (F s) (listH s) (qList s) v (isComputed s).
Definition set_isComputed (v : bool) (s : MFDFA) : MFDFA :=
  mkMFDFA (n s) (tsVec s) (F s) (listH s) (qList s) (nStep s) v.

(** ** Method calls: exception or value, object afterwards, lines printed *)

Record outcome (A : Type) : Type := Outcome {
  result : exn + A;
  final : MFDFA;
  printed : list string
}.
Arguments Outcome {A} _ _ _.
Arguments result {A} _.
Arguments final {A} _.
Arguments printed {A} _.

Definition M (A : Type) : Type := MFDFA -> outcome A.

Definition ret {A} (a : A) : M A := fun s => Outcome (inr a) s [].
Definition raise {A} (e : exn) : M A := fun s => Outcome (inl e) s [].
Definition bind {A B} (m : M A) (k : A -> M B) : M B :=
  fun s =>
    let o := m s in
    match result o with
    | inl e => Outcome (inl e) (final o) (printed o)
    | inr a =>
        let o' := k a (final o) in
        Outcome (result o') (final o') (printed o ++ printed o')
    end.
Definition get : M MFDFA := fun s => Outcome (inr s) s [].
Definition modify (f : MFDFA -> MFDFA) : M unit := fun s => Outcome (inr tt) (f s) [].
Definition print (line : string) : M unit := fun s => Outcome (inr tt) s [line].
Definition lift {A} (r : exn + A) : M A := fun s => Outcome r s [].
Definition when (b : bool) (m : M unit) : M unit := if b then m else ret tt.

Declare Scope py_scope.
Delimit Scope py_scope with py.
Notation "x <- c1 ;; c2" := (bind c1 (fun x => c2))
  (at level 61, c1 at next level, right associativity) : py_scope.
Notation "c1 ;; c2" := (bind c1 (fun _ => c2))
  (at level 61, right associativity) : py_scope.
Open Scope py_scope.

Fixpoint foldM {A B} (f : B -> A -> M B) (l : list A) (b : B) : M B :=
  match l with
  | [] => ret b
  | x :: l' => b' <- f b x ;; foldM f l' b'
  end.

(** [raises o]: the call ended in an exception. *)
Definition raises {A} (o : outcome A) : Prop := exists e, result o = inl e.

(** ** Python and numpy helpers *)

Definition INT_MIN : Z := - 2 ^ 31.
Definition INT_MAX : Z := 2 ^ 31 - 1.

(** A Python int passed for a parameter declared [int]. *)
Definition to_c_int (z : Z) : M Z :=
  if (INT_MIN <=? z) && (z <=? INT_MAX) then ret z else raise OverflowError.

(** [a + b] on two C ints: the sum is kept to 32 bits, two's complement, so
    that INT_MAX + 1 is INT_MIN. *)
Definition c_int_add (a b : Z) : Z := (a + b - INT_MIN) mod 2 ^ 32 + INT_MIN.

(** [str.format] of an integer for a [{}] field. *)
Definition str_of_Z (z : Z) : string := NilZero.string_of_int (Z.to_int z).

(** An integer array element read as float64 (exact below 2^53). *)
Definition float_of_Z (z : Z) : float :=
  if z <? 0 then PrimFloat.opp (PrimFloat.of_uint63 (Uint63.of_Z (- z)))
  else PrimFloat.of_uint63 (Uint63.of_Z z).

Definition np_isnan (x : float) : bool := PrimFloat.is_nan x.
Definition is_finite (x : float) : bool :=
  negb (PrimFloat.is_nan x) && negb (PrimFloat.is_infinity x).

(** ceil (a / b) for b <> 0. *)
Definition ceil_div (a b : Z) : Z := - ((- a) / b).

(** [np.arange(start, stop, step, dtype=c_int)] for a non-zero step: numpy
    computes the length ceil((stop - start) / step), floored at 0, and fills
    entry i with start + i * step. *)
Definition np_arange (start stop step : Z) : list Z :=
  map (fun i => start + Z.of_nat i * step)
      (seq 0 (Z.to_nat (ceil_div (stop - start) step))).

Definition np_zeros (len : nat) : list float := repeat 0%float len.

Fixpoint zip_with {A B C} (f : A -> B -> C) (l1 : list A) (l2 : list B) : list C :=
  match l1, l2 with
  | a :: l1', b :: l2' => f a b :: zip_with f l1' l2'
  | _, _ => []
  end.

(** An elementwise binary operation on two 1-D arrays, with numpy's
    broadcasting: equal lengths pair up, a length-1 operand is stretched,
    anything else is refused. *)
Definition np_binop (f : float -> float -> float) (a b : list float) : exn + list float :=
  if Nat.eqb (length a) (length b) then inr (zip_with f a b)
  else match a, b with
       | [x], _ => inr (map (fun y => f x y) b)
       | _, [y] => inr (map (fun x => f x y) a)
       | _, _ => inl BroadcastError
       end.

(** [np.diff]: out[i] = a[i+1] - a[i]. *)
Definition np_diff (a : list float) : list float :=
  zip_with (fun lo hi => PrimFloat.sub hi lo) a (tl a).

(** Python slice [l[a:b]] (step 1), negative bounds counted from the end. *)
Definition clamp_index (len i : Z) : Z :=
  if i <? 0 then Z.max 0 (i + len) else Z.min i len.
Definition py_slice {A} (l : list A) (a b : Z) : list A :=
  let len := Z.of_nat (length l) in
  let a' := clamp_index len a in
  let b' := clamp_index len b in
  firstn (Z.to_nat (b' - a')) (skipn (Z.to_nat a') l).

(** [arr[i]] for 0 <= i, on an attribute that may still be [None]. *)
Definition need {A} (o : option A) : M A :=
  match o with Some a => ret a | None => raise TypeError end.
Definition item {A} (l : list A) (i : nat) : M A :=
  match nth_error l i with Some a => ret a | None => raise IndexError end.
(** [arr[-1]] *)
Definition item_last {A} (l : list A) : M A :=
  match l with [] => raise IndexError | _ => item l (length l - 1) end.

(** [arr[i] = v] *)
Fixpoint set_item {A} (l : list A) (i : nat) (v : A) : option (list A) :=
  match l, i with
  | [], _ => None
  | _ :: l', O => Some (v :: l')
  | a :: l', S i' => option_map (cons a) (set_item l' i' v)
  end.

(** [x in arr] for an integer array. *)
Definition np_contains (x : Z) (l : list Z) : bool := existsb (Z.eqb x) l.

(** ** [MFDFA.__init__]

<<
    def __init__(self, tsVec):
        self.tsVec = np.array(tsVec, dtype=float)
        self.tsVec = self.tsVec[~np.isnan(self.tsVec)]
        self.isComputed = False
>>
    The argument is a sequence of numbers, read as float64 values. *)

(** The object before [__init__] has run: array attributes are [None] (the
    series, never read in that state, is the empty list), [nStep] is 0 and
    [isComputed] is false. *)
Definition blank : MFDFA :=
  {| n := None; tsVec := []; F := None; listH := None; qList := None;
     nStep := 0; isComputed := false |}.

Definition __init__ (ts : list float) : M unit :=
  modify (set_tsVec ts) ;;
  s <- get ;;
  modify (set_tsVec (filter (fun x => negb (np_isnan x)) (tsVec s))) ;;
  modify (set_isComputed false).

(** [MFDFA(tsVec)]: the outcome of the constructor call, and the object built. *)
Definition MFDFA_call (ts : list float) : outcome unit := __init__ ts blank.
Definition MFDFA_new (ts : list float) : MFDFA := final (MFDFA_call ts).

(** ** [computeMassExponents]

<<
    if self.isComputed:
        tau = self.listH * self.qList - 1
        return tau
    else:
        print('Nothing to fit, fluctuations vector has not been computed yet.')
>>
*)

Definition msg_nothing_to_fit : string :=
  "Nothing to fit, fluctuations vector has not been computed yet.".

(** [a * b] on two [np.ndarray] attributes, bound afterwards to a float64
    buffer.  With one operand still [None] numpy multiplies elementwise as
    Python objects: float * None raises [TypeError]; on an empty array there
    is no element, the product is an empty object array, and binding it to
    the float64 buffer [tau] is refused. *)
Definition np_mul_attr (a b : option (list float)) : M (list float) :=
  match a, b with
  | Some x, Some y => lift (np_binop PrimFloat.mul x y)
  | Some [], None | None, Some [] => raise BufferDtypeError
  | _, _ => raise TypeError
  end.

Definition computeMassExponents : M (option (list float)) :=
  s <- get ;;
  if isComputed s then
    prod <- np_mul_attr (listH s) (qList s) ;;
    let tau := map (fun x => PrimFloat.sub x 1%float) prod in
    ret (Some tau)
  else
    print msg_nothing_to_fit ;;
    ret None.

(** ** [computeMultifractalSpectrum]

<<
    if self.isComputed:
        if len(self.qList) > 1:
            tau = self.computeMassExponents()
            alpha = np.diff(tau) / (self.qList[1] - self.qList[0])
            mfSpect = self.qList[0:-1] * alpha - tau[0:-1]
            return alpha, mfSpect
        else:
            raise ValueError('Error: Number of q moments must be ...')
    else:
        print('Nothing to fit, fluctuations vector has not been computed yet.')
>>
    [computeMassExponents] is called with [isComputed] set, where it returns
    an array ([computeMassExponents_array] below), so [need] never fails on
    its result. *)

Definition msg_q_moments : string :=
  "Error: Number of q moments must be greater than one to compute multifractal spectrum.".

Definition computeMultifractalSpectrum : M (option (list float * list float)) :=
  s <- get ;;
  if isComputed s then
    q <- need (qList s) ;;
    if 1 <? Z.of_nat (length q) then
      r <- computeMassExponents ;;
      tau <- need r ;;
      s <- get ;;
      q <- need (qList s) ;;
      q1 <- item q 1 ;;
      q0 <- item q 0 ;;
      let alpha := map (fun d => PrimFloat.div d (PrimFloat.sub q1 q0)) (np_diff tau) in
      qa <- lift (np_binop PrimFloat.mul (py_slice q 0 (-1)) alpha) ;;
      mfSpect <- lift (np_binop PrimFloat.sub qa (py_slice tau 0 (-1))) ;;
      ret (Some (alpha, mfSpect))
    else
      raise (ValueError msg_q_moments)
  else
    print msg_nothing_to_fit ;;
    ret None.

(** ** The [qList] argument of [computeFlucVec]

    The argument is an untyped Python object; these are the forms the
    properties below distinguish. *)
Inductive pyval : Type :=
| PyFloat (x : float)            (* a Python float (or np.float64) *)
| PyInt (z : Z)                  (* a Python int *)
| PyList (l : list float)        (* a list of numbers *)
| PyNdarray (l : list float)     (* a 1-D numpy array of numbers *)
| PyTuple (l : list float)       (* a tuple of numbers *)
| PyStr (t : string)
| PyNone.

Definition msg_polOrd : string := "Error: Polynomial order must be greater than 0.".
Definition msg_nStep : string := "Error: Step for scales must be greater than 0.".
Definition msg_three : string := "Error: Variable nMin and nMax must be at least equal to 3.".
Definition msg_nMax_nMin : string := "Error: Variable nMax must be greater than variable nMin.".
Definition msg_nMax_len : string := "Error: Variable nMax must be less than the input vector length.".
Definition msg_nMin_polOrd (polOrd : Z) : string :=
  ("Error: Variable nMin must be at least equal to " ++ str_of_Z (polOrd + 2) ++ ".")%string.
Definition msg_nEnd_nStart : string := "Error: Variable nEnd must be greater than variable nStart.".
Definition msg_fit_interval (lo hi : Z) : string :=
  ("Error: Fit limits must be included in interval [" ++ str_of_Z lo ++ ", " ++ str_of_Z hi ++ "].")%string.
Definition msg_fit_member : string := "Error: Fit limits must be included in the n vector.".
Definition msg_fit_limits (nStart nEnd : Z) : string :=
  ("Fit limits: [" ++ str_of_Z nStart ++ ", " ++ str_of_Z nEnd ++ "]")%string.

(** The default values of the optional parameters. *)
Definition nMax_default : Z := -999.
Definition polOrd_default : Z := 1.
Definition nStep_default : Z := 1.
Definition revSeg_default : bool := false.
Definition nStart_default : Z := -999.
Definition nEnd_default : Z := -999.
(** [np.e] rounded to a C [float], read back as a double. *)
Definition logBase_default : float := 0x1.5bf0a8p+1%float.
Definition verbose_default : bool := false.

Definition or_default {A} (d : A) (o : option A) : A :=
  match o with Some a => a | None => d end.

Section Externals.

(** cLoops.h: the fluctuation of the series [y] of length [N] at one
    window size and one q-order. *)
Variable flucMFDFAForwCompute : list float -> Z -> float -> Z -> Z -> float.
Variable flucMFDFAForwBackwCompute : list float -> Z -> float -> Z -> Z -> float.
(** [np.log] on one float64. *)
Variable np_log : float -> float.
(** [np.polyfit(x, y, 1)]: the two coefficients, highest degree first, or
    the exception it raises. *)
Variable np_polyfit1 : list float -> list float -> exn + (float * float).
(** ['{:.2f}'.format(x)] *)
Variable format_2f : float -> string.
(** Whether numpy can allocate an array of that many bytes; when it cannot,
    the routine that makes the array raises [MemoryError]. *)
Variable can_allocate : Z -> bool.

Definition np_alloc (bytes : Z) : M unit :=
  when (negb (can_allocate bytes)) (raise MemoryError).

(** *** [cy_computeFlucVec]

<<
  cdef cy_computeFlucVec(self, int tsLen, int nMin, ndarray q_list,
                         int nMax, int polOrd, int nStep, bint revSeg):
      self.qList = q_list
      self.nStep = nStep
      vecn = np.arange(nMin, nMax + 1, nStep, dtype=ctypes.c_int)
      nLen = len(vecn)
      mtxf = np.zeros((len(q_list) * nLen, ), dtype=ctypes.c_double)
      vects = np.array(self.tsVec, dtype=ctypes.c_double)
      ... mtxf[i*nLen+j] = fluc(&vects[0], vecn[j], q_list[i], tsLen, polOrd)
      return vecn, np.reshape(mtxf, (len(self.qList), nLen))
>>
    The integer arguments are converted to C ints when the call is made, and
    [nMax + 1] is an addition of C ints.  The two attributes are written
    first; the three arrays are made afterwards ([vecn] of 4-byte ints, [mtxf]
    and [vects] of 8-byte floats), and each can fail for lack of memory, which
    leaves the two writes in place.  Row i of the reshaped matrix is
    mtxf[i*nLen .. i*nLen+nLen-1]; the matrix is built here row by row. *)
Definition cy_computeFlucVec (tsLen nMin : Z) (q_list : list float)
           (nMax polOrd nStep : Z) (revSeg : bool) : M (list Z * list (list float)) :=
  tsLen <- to_c_int tsLen ;;
  nMin <- to_c_int nMin ;;
  nMax <- to_c_int nMax ;;
  polOrd <- to_c_int polOrd ;;
  nStep <- to_c_int nStep ;;
  modify (set_qList q_list) ;;
  modify (set_nStep nStep) ;;
  let vecn := np_arange nMin (c_int_add nMax 1) nStep in
  np_alloc (4 * Z.of_nat (length vecn)) ;;
  let nLen := length vecn in
  np_alloc (8 * (Z.of_nat (length q_list) * Z.of_nat nLen)) ;;
  s <- get ;;
  let vects := tsVec s in
  np_alloc (8 * Z.of_nat (length vects)) ;;
  let fluc := if revSeg then flucMFDFAForwBackwCompute else flucMFDFAForwCompute in
  let mtxf := map (fun q => map (fun w => fluc vects w q tsLen polOrd) vecn) q_list in
  ret (vecn, mtxf).

(** *** [computeFlucVec]

<<
  def computeFlucVec(self, nMin, qList, nMax=-999, polOrd=1, nStep=1, revSeg=False):
      tsLen = len(self.tsVec)
      if polOrd < 1: raise ValueError('Error: Polynomial order must be greater than 0.')
      if nStep < 1: raise ValueError('Error: Step for scales must be greater than 0.')
      if nMax == -999: nMax = int(tsLen / 4)
      if nMax < 3 or nMin < 3: raise ValueError(...)
      if nMax <= nMin: raise ValueError(...)
      if nMax > tsLen: raise ValueError(...)
      if nMin < (polOrd + 2): raise ValueError('...{}.'.format(polOrd + 2))
      if isinstance(qList, float):
          qList = np.array([qList], dtype=ctypes.c_double)
      elif isinstance(qList, list) or isinstance(qList, np.ndarray):
          qList = np.array(qList, dtype=ctypes.c_double)
      else:
          raise ValueError('Error: q_list type is {}. ...'.format(type(q_list)))
      self.n, self.F = self.cy_computeFlucVec(tsLen, nMin, qList, nMax, polOrd, nStep, revSeg)
      self.isComputed = True
      return self.n, self.F
>>
    The scale arguments are Python ints.  [int(tsLen / 4)] is the floor of
    tsLen / 4, the length being non-negative (and below 2^53).  In the last
    branch the message is formatted from [q_list], a name that is bound
    nowhere in this function or in the module (the parameter is [qList]):
    evaluating it raises [NameError] before the [ValueError] is built. *)
Definition computeFlucVec (nMin : Z) (qList : pyval) (nMax polOrd nStep : Z)
           (revSeg : bool) : M (list Z * list (list float)) :=
  s <- get ;;
  let tsLen := Z.of_nat (length (tsVec s)) in
  when (polOrd <? 1) (raise (ValueError msg_polOrd)) ;;
  when (nStep <? 1) (raise (ValueError msg_nStep)) ;;
  let nMax := if nMax =? -999 then tsLen / 4 else nMax in
  when ((nMax <? 3) || (nMin <? 3)) (raise (ValueError msg_three)) ;;
  when (nMax <=? nMin) (raise (ValueError msg_nMax_nMin)) ;;
  when (nMax >? tsLen) (raise (ValueError msg_nMax_len)) ;;
  when (nMin <? polOrd + 2) (raise (ValueError (msg_nMin_polOrd polOrd))) ;;
  qList <- match qList with
           | PyFloat x => ret [x]
           | PyList l | PyNdarray l => ret l
           | _ => raise (NameError "q_list")
           end ;;
  r <- cy_computeFlucVec tsLen nMin qList nMax polOrd nStep revSeg ;;
  modify (set_n (fst r)) ;;
  modify (set_F (snd r)) ;;
  modify (set_isComputed true) ;;
  ret r.

(** A call that leaves optional arguments out. *)
Definition computeFlucVec_call (nMin : Z) (qList : pyval) (nMax polOrd nStep : option Z)
           (revSeg : option bool) : M (list Z * list (list float)) :=
  computeFlucVec nMin qList (or_default nMax_default nMax)
                 (or_default polOrd_default polOrd) (or_default nStep_default nStep)
                 (or_default revSeg_default revSeg).

(** *** [fitFlucVec]

<<
  cpdef fitFlucVec(self, int nStart=-999, int nEnd=-999,
                   float logBase=np.e, bint verbose=False):
      if self.isComputed:
          if nStart == -999: nStart = self.n[0]
          if nEnd == -999:   nEnd = self.n[-1]
          if nStart > nEnd: raise ValueError(...)
          if (nStart < self.n[0]) or (nEnd > self.n[-1]): raise ValueError(...)
          if (nStart not in self.n) or (nEnd not in self.n): raise ValueError(...)
          qLen = len(self.qList)
          start = int((nStart - self.n[0]) / self.nStep)
          end = int((nEnd - self.n[0]) / self.nStep)
          self.listH = np.zeros((qLen, ), dtype=ctypes.c_double)
          list_H_intercept = np.zeros((qLen, ), dtype=ctypes.c_double)
          if verbose: print('Fit limits: [{}, {}]'.format(nStart, nEnd))
          for i in range(qLen):
              log_fit = np.polyfit(np.log(self.n[start:end+1]) / np.log(logBase),
                                   np.log(self.F[i, start:end+1]) / np.log(logBase), 1)
              self.listH[i] = log_fit[0]
              list_H_intercept[i] = log_fit[1]
              if verbose: print('Fit result for q = ...'.format(...))
          return self.listH, list_H_intercept
      else:
          print('Nothing to fit, fluctuations vector has not been computed yet.')
>>
    [nStart] and [nEnd] are C ints: the Python ints passed for them are
    converted when the call is made, before the body runs, and a value that
    does not fit raises [OverflowError].  [logBase] is a C float, taken here
    as already converted.  [start] and [end] are C ints, and so is
    [end + 1]; [qLen] is the length of the list. *)

(** [int(a / b)]: true division, then truncation towards zero.  A zero
    divisor gives NaN (0 / 0) or an infinity, and [int] refuses both. *)
Definition int_truediv (a b : Z) : M Z :=
  if b =? 0 then
    if a =? 0 then raise (ValueError "cannot convert float NaN to integer")
    else raise OverflowError
  else ret (Z.quot a b).

(** [self.n], [self.n[0]], [self.n[-1]], read when the statement runs. *)
Definition self_n : M (list Z) := s <- get ;; need (n s).
Definition n_first : M Z := ns <- self_n ;; item ns 0.
Definition n_last : M Z := ns <- self_n ;; item_last ns.

Definition msg_fit_result (q icpt h : float) : string :=
  ("Fit result for q = " ++ format_2f q ++ ": H intercept = " ++ format_2f icpt
     ++ ", H = " ++ format_2f h)%string.

(** One turn of the loop over [range(qLen)]; the local array
    [list_H_intercept] is threaded through. *)
Definition fit_step (start end_ : Z) (logBase : float) (verbose : bool)
           (list_H_intercept : list float) (i : nat) : M (list float) :=
  s <- get ;;
  ns <- need (n s) ;;
  Fm <- need (F s) ;;
  row <- item Fm i ;;
  let x := map (fun w => PrimFloat.div (np_log (float_of_Z w)) (np_log logBase))
               (py_slice ns start (c_int_add end_ 1)) in
  let y := map (fun v => PrimFloat.div (np_log v) (np_log logBase))
               (py_slice row start (c_int_add end_ 1)) in
  log_fit <- lift (np_polyfit1 x y) ;;
  h <- need (listH s) ;;
  h' <- match set_item h i (fst log_fit) with
        | Some h' => ret h' | None => raise IndexError end ;;
  modify (set_listH h') ;;
  icpt' <- match set_item list_H_intercept i (snd log_fit) with
           | Some l => ret l | None => raise IndexError end ;;
  when verbose (qs <- need (qList s) ;;
                q <- item qs i ;;
                print (msg_fit_result q (snd log_fit) (fst log_fit))) ;;
  ret icpt'.

(** The body, run on the converted arguments. *)
Definition fitFlucVec_body (nStart nEnd : Z) (logBase : float) (verbose : bool)
  : M (option (list float * list float)) :=
  s <- get ;;
  if isComputed s then
    nStart <- (if nStart =? -999 then n_first else ret nStart) ;;
    nEnd <- (if nEnd =? -999 then n_last else ret nEnd) ;;
    when (nStart >? nEnd) (raise (ValueError msg_nEnd_nStart)) ;;
    n0 <- n_first ;;
    outside <- (if nStart <? n0 then ret true
                else nl <- n_last ;; ret (nEnd >? nl)) ;;
    when outside (lo <- n_first ;; hi <- n_last ;;
                  raise (ValueError (msg_fit_interval lo hi))) ;;
    ns <- self_n ;;
    when (negb (np_contains nStart ns) || negb (np_contains nEnd ns))
         (raise (ValueError msg_fit_member)) ;;
    qs <- need (qList s) ;;
    let qLen := length qs in
    n0 <- n_first ;;
    start <- int_truediv (nStart - n0) (nStep s) ;;
    start <- to_c_int start ;;
    n0 <- n_first ;;
    end_ <- int_truediv (nEnd - n0) (nStep s) ;;
    end_ <- to_c_int end_ ;;
    modify (set_listH (np_zeros qLen)) ;;
    when verbose (print (msg_fit_limits nStart nEnd)) ;;
    list_H_intercept <- foldM (fit_step start end_ logBase verbose)
                              (seq 0 qLen) (np_zeros qLen) ;;
    s <- get ;;
    h <- need (listH s) ;;
    ret (Some (h, list_H_intercept))
  else
    print msg_nothing_to_fit ;;
    ret None.

Definition fitFlucVec (nStart nEnd : Z) (logBase : float) (verbose : bool)
  : M (option (list float * list float)) :=
  nStart <- to_c_int nStart ;;
  nEnd <- to_c_int nEnd ;;
  fitFlucVec_body nStart nEnd logBase verbose.

(** A call that leaves optional arguments out. *)
Definition fitFlucVec_call (nStart nEnd : option Z) (logBase : option float)
           (verbose : option bool) : M (option (list float * list float)) :=
  fitFlucVec (or_default nStart_default nStart) (or_default nEnd_default nEnd)
             (or_default logBase_default logBase) (or_default verbose_default verbose).

End Externals.

(** * Notions used to state the properties *)

(** [subseq l1 l2]: [l1] is [l2] with some entries left out, the others in
    their order. *)
Inductive subseq {A} : list A -> list A -> Prop :=
| subseq_nil : subseq [] []
| subseq_skip x l1 l2 : subseq l1 l2 -> subseq l1 (x :: l2)
| subseq_keep x l1 l2 : subseq l1 l2 -> subseq (x :: l1) (x :: l2).

(** The number of entries of [l] that satisfy [p]. *)
Fixpoint count_if {A} (p : A -> bool) (l : list A) : nat :=
  match l with
  | [] => O
  | x :: l' => if p x then S (count_if p l') else count_if p l'
  end.

(** The series length [len(self.tsVec)]. *)
Definition tsLen_of (s : MFDFA) : Z := Z.of_nat (length (tsVec s)).

(** [nMax] once the default has been resolved. *)
Definition effective_nMax (s : MFDFA) (nMax : Z) : Z :=
  if nMax =? -999 then tsLen_of s / 4 else nMax.

(** The array [computeFlucVec] makes of its [qList] argument, when it takes it. *)
Definition accepted_qList (q : pyval) : option (list float) :=
  match q with
  | PyFloat x => Some [x]
  | PyList l | PyNdarray l => Some l
  | _ => None
  end.

Definition in_c_int (z : Z) : bool := (INT_MIN <=? z) && (z <=? INT_MAX).

(** Whether memory suffices for the three arrays [cy_computeFlucVec] makes:
    the scales, the matrix and the copy of the series. *)
Definition enough_memory (can_allocate : Z -> bool) (nLen qLen : nat) (tsLen : Z) : bool :=
  can_allocate (4 * Z.of_nat nLen)
  && can_allocate (8 * (Z.of_nat qLen * Z.of_nat nLen))
  && can_allocate (8 * tsLen).

(** The fluctuation matrix, one row per q-order and one column per scale. *)
Definition fluc_matrix (flucMFDFAForwCompute flucMFDFAForwBackwCompute :
                         list float -> Z -> float -> Z -> Z -> float) (revSeg : bool) (ts : list float) (vecn : list Z) (q_list : list float)
           (tsLen polOrd : Z) : list (list float) :=
  map (fun q => map (fun w =>
         (if revSeg then flucMFDFAForwBackwCompute else flucMFDFAForwCompute)
           ts w q tsLen polOrd) vecn) q_list.

(** The six checks on the scale parameters, as the specification lists them. *)
Inductive check : Type :=
| PolOrdBelowOne       (* polynomialOrder < 1 *)
| StepBelowOne         (* nStep < 1 *)
| BelowThree           (* nMax < 3 or nMin < 3 *)
| MaxNotAboveMin       (* nMax <= nMin *)
| MaxAboveLength       (* nMax > N *)
| MinBelowOrderPlusTwo (* nMin < polynomialOrder + 2 *).

Definition check_fails (polOrd nStep nMin nMax N : Z) (c : check) : bool :=
  match c with
  | PolOrdBelowOne => polOrd <? 1
  | StepBelowOne => nStep <? 1
  | BelowThree => (nMax <? 3) || (nMin <? 3)
  | MaxNotAboveMin => nMax <=? nMin
  | MaxAboveLength => nMax >? N
  | MinBelowOrderPlusTwo => nMin <? polOrd + 2
  end.

(** The precedence order of the checks and the place of each in it. *)
Definition precedence : list check :=
  [PolOrdBelowOne; StepBelowOne; BelowThree; MaxNotAboveMin; MaxAboveLength;
   MinBelowOrderPlusTwo].

Definition rank (c : check) : nat :=
  match c with
  | PolOrdBelowOne => 0 | StepBelowOne => 1 | BelowThree => 2
  | MaxNotAboveMin => 3 | MaxAboveLength => 4 | MinBelowOrderPlusTwo => 5
  end.

(** The earliest failing check, if any. *)
Definition first_failing (polOrd nStep nMin nMax N : Z) : option check :=
  find (check_fails polOrd nStep nMin nMax N) precedence.

(** The error each check reports. *)
Definition check_error (polOrd : Z) (c : check) : exn :=
  match c with
  | PolOrdBelowOne => ValueError msg_polOrd
  | StepBelowOne => ValueError msg_nStep
  | BelowThree => ValueError msg_three
  | MaxNotAboveMin => ValueError msg_nMax_nMin
  | MaxAboveLength => ValueError msg_nMax_len
  | MinBelowOrderPlusTwo => ValueError (msg_nMin_polOrd polOrd)
  end.

(** The series 1, 2, ..., k. *)
Definition ramp (k : nat) : list float :=
  map (fun i => float_of_Z (Z.of_nat i)) (seq 1 k).

(** The state a successful [computeFlucVec] leaves when nMax is below the
    largest C int: the scale set is the arithmetic progression from nMin to
    at most nMax by [nStep], and the matrix has one row per q-order and one
    column per scale. *)
Record computed (s : MFDFA) (nMin nMax : Z) (qs : list float) (Fm : list (list float))
  : Prop := {
  computed_flag : isComputed s = true;
  computed_n : n s = Some (np_arange nMin (nMax + 1) (nStep s));
  computed_nMin : 3 <= nMin;
  computed_nMax : nMin < nMax < INT_MAX;
  computed_nStep : 1 <= nStep s;
  computed_qList : qList s = Some qs;
  computed_F : F s = Some Fm;
  computed_rows : length Fm = length qs;
  computed_cols :
    Forall (fun row => length row = length (np_arange nMin (nMax + 1) (nStep s))) Fm
}.

(** The state a successful [computeFlucVec] leaves when nMax is the largest
    C int, the series having that many values: nMax + 1 has wrapped around,
    the scale set is empty and the matrix has one row without entries per
    q-order. *)
Record computed_empty (s : MFDFA) (qs : list float) : Prop := {
  empty_flag : isComputed s = true;
  empty_n : n s = Some [];
  empty_len : tsLen_of s = INT_MAX;
  empty_nStep : 1 <= nStep s;
  empty_qList : qList s = Some qs;
  empty_F : F s = Some (map (fun _ => []) qs)
}.

(** [s'] differs from [s] in [listH] at most. *)
Definition same_but_listH (s s' : MFDFA) : Prop :=
  n s' = n s /\ tsVec s' = tsVec s /\ F s' = F s /\ qList s' = qList s /\
  nStep s' = nStep s /\ isComputed s' = isComputed s.

(** A computation that changes [listH] at most, whatever its result. *)
Definition keeps {A} (m : M A) : Prop := forall s, same_but_listH s (final (m s)).

(** The entries of a list with entry [i] replaced. *)
Definition replaced {A} (l : list A) (i : nat) (v : A) : list A :=
  firstn i l ++ v :: skipn (S i) l.

(** [f] applied to every entry in turn, stopping at the first exception. *)
Fixpoint map_exn {A B} (f : A -> exn + B) (l : list A) : exn + list B :=
  match l with
  | [] => inr []
  | x :: l' =>
      match f x with
      | inl e => inl e
      | inr y => match map_exn f l' with
                 | inl e => inl e
                 | inr ys => inr (y :: ys)
                 end
      end
  end.

(** log of [x] in base [base], as [fitFlucVec] computes it. *)
Definition log_base (np_log : float -> float) (base x : float) : float :=
  PrimFloat.div (np_log x) (np_log base).

(** The closed sub-range [a, b] of the scale set, and the entries of a row
    of the fluctuation matrix at the scales of that sub-range. *)
Definition in_range (a b w : Z) : bool := (a <=? w) && (w <=? b).
Definition sub_scales (a b : Z) (ns : list Z) : list Z := filter (in_range a b) ns.
Definition sub_row (a b : Z) (ns : list Z) (row : list float) : list float :=
  map snd (filter (fun p => in_range a b (fst p)) (combine ns row)).

(** The degree-1 fit of log F_q(s) against log s over the scales in [a, b],
    for one row of the matrix. *)
Definition fit_row (np_log : float -> float)
           (np_polyfit1 : list float -> list float -> exn + (float * float))
           (base : float) (a b : Z) (ns : list Z) (row : list float) : exn + (float * float) :=
  np_polyfit1 (map (fun w => log_base np_log base (float_of_Z w)) (sub_scales a b ns))
              (map (log_base np_log base) (sub_row a b ns row)).

(** The fit limits once the defaults have been resolved, and the test that
    they are ordered, inside [first, last] and members of the scale set. *)
Definition effective_nStart (ns : list Z) (nStart : Z) : Z :=
  if nStart =? -999 then hd 0 ns else nStart.
Definition effective_nEnd (ns : list Z) (nEnd : Z) : Z :=
  if nEnd =? -999 then last ns 0 else nEnd.
Definition valid_limits (ns : list Z) (a b : Z) : bool :=
  (a <=? b) && (hd 0 ns <=? a) && (b <=? last ns 0)
  && np_contains a ns && np_contains b ns.

(** Stand-ins for the external routines, to run the methods on concrete
    inputs: a fluctuation equal to the window size, the identity for the
    logarithm, the least-squares line in closed form, and a fixed text for a
    formatted float. *)
Definition demo_fluc (y : list float) (w : Z) (q : float) (N polOrd : Z) : float :=
  float_of_Z w.
Definition demo_log (x : float) : float := x.
Definition fsum (l : list float) : float := fold_left PrimFloat.add l 0%float.
Definition demo_polyfit1 (x y : list float) : exn + (float * float) :=
  match x with
  | [] => inl TypeError
  | _ =>
      let m := float_of_Z (Z.of_nat (length x)) in
      let sx := fsum x in
      let sy := fsum y in
      let sxx := fsum (zip_with PrimFloat.mul x x) in
      let sxy := fsum (zip_with PrimFloat.mul x y) in
      let slope := PrimFloat.div (PrimFloat.sub (PrimFloat.mul m sxy) (PrimFloat.mul sx sy))
                                 (PrimFloat.sub (PrimFloat.mul m sxx) (PrimFloat.mul sx sx)) in
      if PrimFloat.is_nan slope then inl LinAlgError
      else inr (slope, PrimFloat.div (PrimFloat.sub sy (PrimFloat.mul slope sx)) m)
  end.
Definition demo_format_2f (x : float) : string := "0.00".

(** A stand-in for the allocator with memory for every array. *)
Definition demo_alloc (bytes : Z) : bool := true.

(** The states a session goes through while memory lasts: built by the
    constructor, then any sequence of method calls, each taken with the state
    it leaves (also when it raises), up to a [computeFlucVec] that runs out
    of memory. *)
Inductive reachable
          (flucMFDFAForwCompute flucMFDFAForwBackwCompute :
             list float -> Z -> float -> Z -> Z -> float)
          (np_log : float -> float)
          (np_polyfit1 : list float -> list float -> exn + (float * float))
          (format_2f : float -> string)
          (can_allocate : Z -> bool) : MFDFA -> Prop :=
| reach_new ts :
    reachable flucMFDFAForwCompute flucMFDFAForwBackwCompute np_log np_polyfit1 format_2f
              can_allocate (MFDFA_new ts)
| reach_computeFlucVec s nMin q nMax polOrd nStep revSeg :
    reachable flucMFDFAForwCompute flucMFDFAForwBackwCompute np_log np_polyfit1 format_2f
              can_allocate s ->
    result (computeFlucVec flucMFDFAForwCompute flucMFDFAForwBackwCompute can_allocate
                           nMin q nMax polOrd nStep revSeg s) <> inl MemoryError ->
    reachable flucMFDFAForwCompute flucMFDFAForwBackwCompute np_log np_polyfit1 format_2f
              can_allocate
              (final (computeFlucVec flucMFDFAForwCompute flucMFDFAForwBackwCompute
                                     can_allocate nMin q nMax polOrd nStep revSeg s))
| reach_fitFlucVec s nStart nEnd logBase verbose :
    reachable flucMFDFAForwCompute flucMFDFAForwBackwCompute np_log np_polyfit1 format_2f
              can_allocate s ->
    reachable flucMFDFAForwCompute flucMFDFAForwBackwCompute np_log np_polyfit1 format_2f
              can_allocate
              (final (fitFlucVec np_log np_polyfit1 format_2f nStart nEnd logBase verbose s))
| reach_computeMassExponents s :
    reachable flucMFDFAForwCompute flucMFDFAForwBackwCompute np_log np_polyfit1 format_2f
              can_allocate s ->
    reachable flucMFDFAForwCompute flucMFDFAForwBackwCompute np_log np_polyfit1 format_2f
              can_allocate (final (computeMassExponents s))
| reach_computeMultifractalSpectrum s :
    reachable flucMFDFAForwCompute flucMFDFAForwBackwCompute np_log np_polyfit1 format_2f
              can_allocate s ->
    reachable flucMFDFAForwCompute flucMFDFAForwBackwCompute np_log np_polyfit1 format_2f
              can_allocate (final (computeMultifractalSpectrum s)).

(** The mass exponent of one q-order, and the spectrum as the specification
    words it: alpha from consecutive mass exponents over the spacing of the
    same consecutive q-orders. *)
Definition tau_of (h q : float) : float := PrimFloat.sub (PrimFloat.mul h q) 1%float.
Definition alpha_consecutive (q tau : list float) : list float :=
  zip_with PrimFloat.div (np_diff tau) (np_diff q).

(** A fitted session with the q-orders 1, 2, 4 and H(q) = 0.5 throughout. *)
Definition spectrum_example : MFDFA :=
  {| n := Some (np_arange 4 (8 + 1) 1);
     tsVec := ramp 32;
     F := Some (fluc_matrix demo_fluc demo_fluc false (ramp 32) (np_arange 4 (8 + 1) 1)
                            [1%float; 2%float; 4%float] 32 1);
     listH := Some [0.5%float; 0.5%float; 0.5%float];
     qList := Some [1%float; 2%float; 4%float];
     nStep := 1;
     isComputed := true |}.

(** A session on the series 1..32, computed for the q-orders 1, 2, 4 with
    the scales 4..8, then fitted over all scales; and one computed for the
    single q-order 2. *)
Definition demo_session : MFDFA :=
  final (computeFlucVec demo_fluc demo_fluc demo_alloc 4 (PyList [1%float; 2%float; 4%float])
                        8 1 1 false (MFDFA_new (ramp 32))).
Definition demo_single_q : MFDFA :=
  final (computeFlucVec demo_fluc demo_fluc demo_alloc 4 (PyFloat 2%float) 8 1 1 false
                        (MFDFA_new (ramp 32))).
Definition demo_fitted : MFDFA :=
  final (fitFlucVec demo_log demo_polyfit1 demo_format_2f (-999) (-999)
                    logBase_default false demo_session).

(** The results of [f] on the entries before the first one it fails on. *)
Fixpoint map_exn_prefix {A B} (f : A -> exn + B) (l : list A) : list B :=
  match l with
  | [] => []
  | x :: l' =>
      match f x with
      | inl _ => []
      | inr y => y :: map_exn_prefix f l'
      end
  end.

(** The fluctuation routine a call of [computeFlucVec] uses. *)
Definition fluc_routine (flucMFDFAForwCompute flucMFDFAForwBackwCompute :
                           list float -> Z -> float -> Z -> Z -> float) (revSeg : bool)
  : list float -> Z -> float -> Z -> Z -> float :=
  if revSeg then flucMFDFAForwBackwCompute else flucMFDFAForwCompute.

(** What holds of an object in every state of a session: the series holds no
    NaN; before the first successful [computeFlucVec] no array is stored;
    afterwards the state is a computed one whose windows fit the series, or
    the one with the empty scale set. *)
Definition session_invariant (s : MFDFA) : Prop :=
  Forall (fun x => np_isnan x = false) (tsVec s) /\
  if isComputed s
  then (exists nMin nMax qs Fm, computed s nMin nMax qs Fm /\ nMax <= tsLen_of s) \/
       (exists qs, computed_empty s qs)
  else n s = None /\ F s = None /\ qList s = None /\ listH s = None.

(** A session fitted for three q-orders and then computed again for two. *)
Definition demo_recomputed : MFDFA :=
  final (computeFlucVec demo_fluc demo_fluc demo_alloc 4 (PyList [2%float; 3%float]) 8 1 1 false
                        demo_fitted).

(** The lines a verbose fit prints for the rows it fitted. *)
Definition fit_lines (format_2f : float -> string) (qs : list float)
           (fits : list (float * float)) : list string :=
  zip_with (fun q p => msg_fit_result format_2f q (snd p) (fst p)) qs fits.

(** A stand-in for the allocator with memory for 64 bytes per array. *)
Definition tight_alloc (bytes : Z) : bool := bytes <=? 64.

(** A stand-in for [np.polyfit] that refuses fewer than three points, and a
    session fitted with it over the whole scale set. *)
Definition picky_polyfit1 (x y : list float) : exn + (float * float) :=
  if (length x <? 3)%nat then inl LinAlgError else demo_polyfit1 x y.
Definition demo_picky_fitted : MFDFA :=
  final (fitFlucVec demo_log picky_polyfit1 demo_format_2f (-999) (-999)
                    logBase_default false demo_session).

(** * Properties *)

(** ** Running a computation *)

Lemma bind_ret_run {A B} (a : A) (k : A -> M B) (s : MFDFA) :
  bind (ret a) k s = k a s.
Proof. unfold bind, ret; simpl. destruct (k a s); reflexivity. Qed.

Lemma bind_raise_run {A B} (e : exn) (k : A -> M B) (s : MFDFA) :
  bind (raise e) k s = Outcome (inl e) s [].
Proof. reflexivity. Qed.

Lemma bind_get_run {B} (k : MFDFA -> M B) (s : MFDFA) :
  bind get k s = k s s.
Proof. unfold bind, get; simpl. destruct (k s s); reflexivity. Qed.

Lemma bind_modify_run {B} (f : MFDFA -> MFDFA) (k : unit -> M B) (s : MFDFA) :
  bind (modify f) k s = k tt (f s).
Proof. unfold bind, modify; simpl. destruct (k tt (f s)); reflexivity. Qed.

Lemma bind_lift_inr_run {A B} (a : A) (k : A -> M B) (s : MFDFA) :
  bind (lift (inr a)) k s = k a s.
Proof. unfold bind, lift; simpl. destruct (k a s); reflexivity. Qed.

Lemma bind_lift_inl_run {A B} (e : exn) (k : A -> M B) (s : MFDFA) :
  bind (lift (inl e)) k s = Outcome (inl e) s [].
Proof. reflexivity. Qed.

Lemma bind_when_false_run {B} (m : M unit) (k : unit -> M B) (s : MFDFA) :
  bind (when false m) k s = k tt s.
Proof. unfold when. apply bind_ret_run. Qed.

Lemma bind_when_raise_run {B} (e : exn) (k : unit -> M B) (s : MFDFA) :
  bind (when true (raise e)) k s = Outcome (inl e) s [].
Proof. reflexivity. Qed.

Lemma bind_assoc_run {A B C} (m : M A) (k : A -> M B) (h : B -> M C) (s : MFDFA) :
  bind (bind m k) h s = bind m (fun a => bind (k a) h) s.
Proof.
  unfold bind; simpl.
  destruct (m s) as [[e | a] s1 p1]; simpl; [reflexivity |].
  destruct (k a s1) as [[e | b] s2 p2]; simpl; [reflexivity |].
  destruct (h b s2) as [r s3 p3]; simpl. now rewrite app_assoc.
Qed.

Create Rewrite HintDb run.
#[local] Hint Rewrite @bind_ret_run @bind_raise_run @bind_get_run @bind_modify_run
  @bind_lift_inr_run @bind_lift_inl_run @bind_when_false_run @bind_when_raise_run
  @bind_assoc_run : run.

Ltac run := repeat (autorewrite with run; cbn beta iota).

Ltac open_fitFlucVec := unfold fitFlucVec.
Ltac open_fitFlucVec_body := unfold fitFlucVec_body.
Ltac open_fit_step := unfold fit_step.
Ltac open_computeFlucVec_call := unfold computeFlucVec_call.
Ltac open_fitFlucVec_call := unfold fitFlucVec_call.

(** ** Construction *)


Lemma MFDFA_call_run (ts : list float) :
  MFDFA_call ts =
  Outcome (inr tt)
          (mkMFDFA None (filter (fun x => negb (np_isnan x)) ts) None None None 0 false) [].
Proof. reflexivity. Qed.

Lemma filter_subseq {A} (p : A -> bool) (l : list A) : subseq (filter p l) l.
Proof.
  induction l as [| x l IH]; simpl.
  - constructor.
  - destruct (p x); now constructor.
Qed.

Lemma is_finite_not_nan (x : float) : is_finite x = true -> np_isnan x = false.
Proof.
  unfold is_finite, np_isnan. destruct (is_nan x); simpl; [discriminate | reflexivity].
Qed.

Lemma count_if_filter_finite (ts : list float) :
  count_if is_finite (filter (fun x => negb (np_isnan x)) ts) = count_if is_finite ts.
Proof.
  induction ts as [| x ts IH]; simpl; [reflexivity |].
  destruct (np_isnan x) eqn:Hnan; simpl.
  - destruct (is_finite x) eqn:Hfin; [| exact IH].
    apply is_finite_not_nan in Hfin. congruence.
  - destruct (is_finite x); now rewrite IH.
Qed.

Lemma count_if_all {A} (p : A -> bool) (l : list A) :
  Forall (fun x => p x = true) l -> count_if p l = length l.
Proof.
  induction 1 as [| x l Hx _ IH]; simpl; [reflexivity |].
  now rewrite Hx, IH.
Qed.

(** C4. The constructor never raises on a sequence of numbers; the stored
    series is the input with entries left out and the rest in their order,
    holds no NaN, and keeps every finite entry.  When each input entry is a
    real number (finite) or a NaN, the stored length is exactly the number of
    finite entries of the input. *)
Theorem C4_init_stores_compacted_series (ts : list float)
  (Hreal : Forall (fun x => is_finite x = true \/ np_isnan x = true) ts) :
  result (MFDFA_call ts) = inr tt /\
  subseq (tsVec (MFDFA_new ts)) ts /\
  Forall (fun x => np_isnan x = false) (tsVec (MFDFA_new ts)) /\
  (forall x, In x ts -> np_isnan x = false -> In x (tsVec (MFDFA_new ts))) /\
  count_if is_finite (tsVec (MFDFA_new ts)) = count_if is_finite ts /\
  length (tsVec (MFDFA_new ts)) = count_if is_finite ts.
Proof.
  unfold MFDFA_new. rewrite MFDFA_call_run. simpl.
  split; [reflexivity |].
  split; [apply filter_subseq |].
  split.
  { apply Forall_forall. intros x Hx. apply filter_In in Hx.
    destruct Hx as [_ Hx]. now apply negb_true_iff in Hx. }
  split.
  { intros x Hin Hx. apply filter_In. split; [exact Hin | now rewrite Hx]. }
  split; [apply count_if_filter_finite |].
  rewrite <- count_if_filter_finite.
  symmetry. apply count_if_all.
  apply Forall_forall. intros x Hx. apply filter_In in Hx.
  destruct Hx as [Hin Hx]. apply negb_true_iff in Hx.
  rewrite Forall_forall in Hreal. destruct (Hreal x Hin); congruence.
Qed.

(** Three finite values with two NaNs in between. *)
Lemma C4_init_witness :
  length (tsVec (MFDFA_new [1%float; nan; 2.5%float; nan; (-3)%float])) = 3%nat /\
  tsVec (MFDFA_new [1%float; nan; 2.5%float; nan; (-3)%float])
  = [1%float; 2.5%float; (-3)%float].
Proof.
  split.
  - apply (C4_init_stores_compacted_series [1%float; nan; 2.5%float; nan; (-3)%float]).
    repeat (apply Forall_cons; [first [left; reflexivity | right; reflexivity] |]).
    apply Forall_nil.
  - reflexivity.
Defined.

(** ** [computeFlucVec], step by step *)

Lemma c_int_add_fits (a b : Z) :
  INT_MIN <= a + b <= INT_MAX -> c_int_add a b = a + b.
Proof.
  unfold c_int_add, INT_MIN, INT_MAX. intros H.
  rewrite Z.mod_small by lia. lia.
Qed.

Lemma c_int_add_wraps : c_int_add INT_MAX 1 = INT_MIN.
Proof. reflexivity. Qed.

Section ComputeFacts.

Variable flucMFDFAForwCompute : list float -> Z -> float -> Z -> Z -> float.
Variable flucMFDFAForwBackwCompute : list float -> Z -> float -> Z -> Z -> float.
Variable can_allocate : Z -> bool.

#[local] Abbreviation computeFlucVec :=
  (computeFlucVec flucMFDFAForwCompute flucMFDFAForwBackwCompute can_allocate).
#[local] Abbreviation cy_computeFlucVec :=
  (cy_computeFlucVec flucMFDFAForwCompute flucMFDFAForwBackwCompute can_allocate).
#[local] Abbreviation fluc_matrix :=
  (fluc_matrix flucMFDFAForwCompute flucMFDFAForwBackwCompute).

Lemma to_c_int_run {B} (z : Z) (k : Z -> M B) (s : MFDFA) :
  bind (to_c_int z) k s =
  if in_c_int z then k z s else Outcome (inl OverflowError) s [].
Proof.
  unfold to_c_int, in_c_int.
  destruct ((INT_MIN <=? z) && (z <=? INT_MAX)); now run.
Qed.

Lemma np_alloc_run {B} (bytes : Z) (k : unit -> M B) (s : MFDFA) :
  bind (np_alloc can_allocate bytes) k s =
  if can_allocate bytes then k tt s else Outcome (inl MemoryError) s [].
Proof. unfold np_alloc. destruct (can_allocate bytes); simpl; now run. Qed.

Lemma cy_computeFlucVec_run (tsLen nMin : Z) (q_list : list float) (nMax polOrd nStep : Z)
      (revSeg : bool) (s : MFDFA) :
  cy_computeFlucVec tsLen nMin q_list nMax polOrd nStep revSeg s =
  if in_c_int tsLen && in_c_int nMin && in_c_int nMax && in_c_int polOrd && in_c_int nStep
  then let vecn := np_arange nMin (c_int_add nMax 1) nStep in
       if enough_memory can_allocate (length vecn) (length q_list) (tsLen_of s)
       then Outcome (inr (vecn, fluc_matrix revSeg (tsVec s) vecn q_list tsLen polOrd))
                    (set_nStep nStep (set_qList q_list s)) []
       else Outcome (inl MemoryError) (set_nStep nStep (set_qList q_list s)) []
  else Outcome (inl OverflowError) s [].
Proof.
  unfold cy_computeFlucVec, enough_memory, tsLen_of.
  repeat (rewrite to_c_int_run;
          match goal with |- context [in_c_int ?z] => destruct (in_c_int z) end;
          cbn beta iota; cbn [andb]; [| reflexivity]).
  run. cbn zeta.
  repeat (rewrite np_alloc_run;
          match goal with |- context [can_allocate ?z] => destruct (can_allocate z) end;
          cbn beta iota; cbn [andb]; [| reflexivity];
          run; cbn zeta; cbn [tsVec set_nStep set_qList]).
  reflexivity.
Qed.

Lemma computeFlucVec_run (nMin : Z) (q : pyval) (nMax polOrd nStep : Z) (revSeg : bool)
      (s : MFDFA) :
  computeFlucVec nMin q nMax polOrd nStep revSeg s =
  let nMax' := effective_nMax s nMax in
  if polOrd <? 1 then Outcome (inl (ValueError msg_polOrd)) s []
  else if nStep <? 1 then Outcome (inl (ValueError msg_nStep)) s []
  else if (nMax' <? 3) || (nMin <? 3) then Outcome (inl (ValueError msg_three)) s []
  else if nMax' <=? nMin then Outcome (inl (ValueError msg_nMax_nMin)) s []
  else if nMax' >? tsLen_of s then Outcome (inl (ValueError msg_nMax_len)) s []
  else if nMin <? polOrd + 2 then Outcome (inl (ValueError (msg_nMin_polOrd polOrd))) s []
  else match accepted_qList q with
       | None => Outcome (inl (NameError "q_list")) s []
       | Some ql =>
           if in_c_int (tsLen_of s) && in_c_int nMin && in_c_int nMax'
              && in_c_int polOrd && in_c_int nStep
           then let vecn := np_arange nMin (c_int_add nMax' 1) nStep in
                if enough_memory can_allocate (length vecn) (length ql) (tsLen_of s)
                then let mtx := fluc_matrix revSeg (tsVec s) vecn ql (tsLen_of s) polOrd in
                     Outcome (inr (vecn, mtx))
                             (mkMFDFA (Some vecn) (tsVec s) (Some mtx) (listH s) (Some ql)
                                      nStep true)
                             []
                else Outcome (inl MemoryError) (set_nStep nStep (set_qList ql s)) []
           else Outcome (inl OverflowError) s []
       end.
Proof.
  unfold computeFlucVec, effective_nMax, tsLen_of. cbn zeta. run.
  repeat match goal with
         | |- context [when ?b _] => destruct b; run; [reflexivity |]
         end.
  assert (Hq : forall B (k : list float -> M B),
             bind (match q with
                   | PyFloat x => ret [x]
                   | PyList l | PyNdarray l => ret l
                   | _ => raise (NameError "q_list")
                   end) k s
             = match accepted_qList q with
               | Some ql => k ql s
               | None => Outcome (inl (NameError "q_list")) s []
               end).
  { intros B k. destruct q; simpl; now run. }
  rewrite Hq. destruct (accepted_qList q) as [ql |]; [| reflexivity].
  unfold bind at 1. rewrite cy_computeFlucVec_run.
  match goal with |- context [if ?b then _ else _] => destruct b end; simpl; [| reflexivity].
  unfold tsLen_of.
  match goal with |- context [enough_memory ?a ?b ?c ?d] => destruct (enough_memory a b c d) end;
    simpl; [| reflexivity].
  run. reflexivity.
Qed.

End ComputeFacts.

(** ** Validation of the scale parameters *)

Ltac zbool :=
  repeat match goal with
         | |- context [?a <? ?b] => destruct (Z.ltb_spec a b)
         | |- context [?a <=? ?b] => destruct (Z.leb_spec a b)
         | |- context [?a >? ?b] => rewrite (Z.gtb_ltb a b)
         | |- context [?a =? ?b] => destruct (Z.eqb_spec a b)
         | H : context [?a <? ?b] |- _ => destruct (Z.ltb_spec a b)
         | H : context [?a <=? ?b] |- _ => destruct (Z.leb_spec a b)
         | H : context [?a >? ?b] |- _ => rewrite (Z.gtb_ltb a b) in H
         | H : context [?a =? ?b] |- _ => destruct (Z.eqb_spec a b)
         end.

Lemma first_failing_none (polOrd nStep nMin nMax N : Z) :
  first_failing polOrd nStep nMin nMax N = None <->
  1 <= polOrd /\ 1 <= nStep /\ 3 <= nMin /\ nMin < nMax /\ nMax <= N /\ polOrd + 2 <= nMin.
Proof.
  unfold first_failing, precedence, find, check_fails.
  split.
  - zbool; simpl; try discriminate; intros _; lia.
  - intros H. zbool; simpl; try reflexivity; lia.
Qed.

Lemma first_failing_earliest (polOrd nStep nMin nMax N : Z) (c : check) :
  first_failing polOrd nStep nMin nMax N = Some c ->
  check_fails polOrd nStep nMin nMax N c = true /\
  forall c', check_fails polOrd nStep nMin nMax N c' = true -> (rank c <= rank c')%nat.
Proof.
  unfold first_failing, precedence. intros H.
  split.
  - now apply find_some in H.
  - intros c' Hc'. simpl in H.
    repeat match type of H with
           | (if ?b then _ else _) = _ => destruct b eqn:?
           end;
      try discriminate; injection H as <-; destruct c'; simpl in *; try lia; congruence.
Qed.

Lemma check_error_injective (polOrd : Z) (c c' : check) :
  check_error polOrd c = check_error polOrd c' -> c = c'.
Proof.
  destruct c, c'; simpl; intros H; try reflexivity; exfalso;
    unfold msg_nMin_polOrd in H; simpl in H; discriminate.
Qed.

Section ValidationFacts.

Variable flucMFDFAForwCompute : list float -> Z -> float -> Z -> Z -> float.
Variable flucMFDFAForwBackwCompute : list float -> Z -> float -> Z -> Z -> float.
Variable can_allocate : Z -> bool.

#[local] Abbreviation computeFlucVec :=
  (computeFlucVec flucMFDFAForwCompute flucMFDFAForwBackwCompute can_allocate).

Lemma computeFlucVec_first_failing (nMin : Z) (q : pyval) (nMax polOrd nStep : Z)
      (revSeg : bool) (s : MFDFA) (c : check) :
  first_failing polOrd nStep nMin (effective_nMax s nMax) (tsLen_of s) = Some c ->
  computeFlucVec nMin q nMax polOrd nStep revSeg s = Outcome (inl (check_error polOrd c)) s [].
Proof.
  rewrite computeFlucVec_run. cbn zeta.
  unfold first_failing, precedence, find, check_fails.
  repeat match goal with
         | |- (if ?b then _ else _) = _ -> _ => destruct b
         end; intros H; try discriminate; injection H as <-; reflexivity.
Qed.

Lemma computeFlucVec_valid (nMin : Z) (q : pyval) (nMax polOrd nStep : Z)
      (revSeg : bool) (s : MFDFA) :
  first_failing polOrd nStep nMin (effective_nMax s nMax) (tsLen_of s) = None ->
  computeFlucVec nMin q nMax polOrd nStep revSeg s =
  let nMax' := effective_nMax s nMax in
  match accepted_qList q with
  | None => Outcome (inl (NameError "q_list")) s []
  | Some ql =>
      if in_c_int (tsLen_of s) && in_c_int nStep
      then let vecn := np_arange nMin (c_int_add nMax' 1) nStep in
           if enough_memory can_allocate (length vecn) (length ql) (tsLen_of s)
           then let mtx := fluc_matrix flucMFDFAForwCompute flucMFDFAForwBackwCompute
                                       revSeg (tsVec s) vecn ql (tsLen_of s) polOrd in
                Outcome (inr (vecn, mtx))
                        (mkMFDFA (Some vecn) (tsVec s) (Some mtx) (listH s) (Some ql) nStep
                                 true) []
           else Outcome (inl MemoryError) (set_nStep nStep (set_qList ql s)) []
      else Outcome (inl OverflowError) s []
  end.
Proof.
  intros Hv. pose proof Hv as Hr. apply first_failing_none in Hr.
  rewrite computeFlucVec_run. cbn zeta.
  unfold first_failing, precedence, find, check_fails in Hv.
  repeat match type of Hv with
         | (if ?b then _ else _) = _ => destruct b; [discriminate |]
         end.
  destruct (accepted_qList q) as [ql |]; [| reflexivity].
  destruct (in_c_int (tsLen_of s)) eqn:HN; simpl; [| reflexivity].
  assert (Hin : forall z, 0 <= z <= tsLen_of s -> in_c_int z = true).
  { intros z Hz. unfold in_c_int, INT_MIN, INT_MAX in *.
    apply andb_true_iff in HN. destruct HN as [_ HN]. apply Z.leb_le in HN.
    apply andb_true_iff. split; apply Z.leb_le; lia. }
  rewrite (Hin nMin), (Hin (effective_nMax s nMax)), (Hin polOrd) by lia.
  reflexivity.
Qed.

End ValidationFacts.

(** ** The scale set [np.arange(nMin, nMax + 1, nStep)] *)

Lemma ceil_div_bounds (d st : Z) :
  0 < st -> (ceil_div d st - 1) * st < d <= ceil_div d st * st.
Proof.
  intros Hst. unfold ceil_div.
  pose proof (Z_div_mod_eq_full (- d) st) as Heq.
  pose proof (Z.mod_pos_bound (- d) st Hst) as Hmod.
  nia.
Qed.

Lemma np_arange_length (a b st : Z) :
  length (np_arange a b st) = Z.to_nat (ceil_div (b - a) st).
Proof. unfold np_arange. now rewrite length_map, length_seq. Qed.

Lemma np_arange_nth_error (a b st : Z) (i : nat) :
  nth_error (np_arange a b st) i =
  if (i <? length (np_arange a b st))%nat then Some (a + Z.of_nat i * st) else None.
Proof.
  rewrite np_arange_length. unfold np_arange.
  rewrite nth_error_map.
  destruct (Nat.ltb_spec i (Z.to_nat (ceil_div (b - a) st))) as [Hlt | Hge].
  - rewrite nth_error_seq. apply Nat.ltb_lt in Hlt. rewrite Hlt. reflexivity.
  - rewrite nth_error_seq. apply Nat.ltb_ge in Hge. rewrite Hge. reflexivity.
Qed.

Lemma np_arange_In (a b st x : Z) :
  In x (np_arange a b st) <->
  exists i, (i < length (np_arange a b st))%nat /\ x = a + Z.of_nat i * st.
Proof.
  rewrite np_arange_length. unfold np_arange. rewrite in_map_iff.
  split.
  - intros (i & <- & Hi). apply in_seq in Hi. exists i. split; [lia | reflexivity].
  - intros (i & Hi & ->). exists i. split; [reflexivity |]. apply in_seq. lia.
Qed.

Lemma affine_sorted (a st : Z) (k len : nat) :
  0 < st -> StronglySorted Z.lt (map (fun i => a + Z.of_nat i * st) (seq k len)).
Proof.
  intros Hst. revert k. induction len as [| len IH]; intros k; simpl.
  - constructor.
  - constructor; [apply IH |].
    apply Forall_forall. intros x Hx. apply in_map_iff in Hx.
    destruct Hx as (i & <- & Hi). apply in_seq in Hi. nia.
Qed.

Lemma np_arange_sorted (a b st : Z) : 0 < st -> StronglySorted Z.lt (np_arange a b st).
Proof. intros Hst. unfold np_arange. now apply affine_sorted. Qed.

(** The length of the scale set, for a window range that passed validation. *)
Lemma np_arange_scale_length (nMin nMax st : Z) :
  nMin < nMax -> 0 < st ->
  let len := Z.of_nat (length (np_arange nMin (nMax + 1) st)) in
  1 <= len /\ (len - 1) * st < nMax - nMin + 1 <= len * st.
Proof.
  intros Hlt Hst. cbn zeta. rewrite np_arange_length.
  pose proof (ceil_div_bounds (nMax + 1 - nMin) st Hst) as Hc.
  assert (1 <= ceil_div (nMax + 1 - nMin) st) by nia.
  rewrite Z2Nat.id by lia. split; [lia |].
  replace (nMax - nMin + 1) with (nMax + 1 - nMin) by lia. exact Hc.
Qed.

Lemma np_arange_scale_range (nMin nMax st x : Z) :
  nMin < nMax -> 0 < st -> In x (np_arange nMin (nMax + 1) st) -> nMin <= x <= nMax.
Proof.
  intros Hlt Hst Hin.
  destruct (np_arange_scale_length nMin nMax st Hlt Hst) as [_ Hlen].
  apply np_arange_In in Hin. destruct Hin as (i & Hi & ->). nia.
Qed.

(** ** Claims on construction and on [computeFlucVec] *)

Section ComputeClaims.

Variable flucMFDFAForwCompute : list float -> Z -> float -> Z -> Z -> float.
Variable flucMFDFAForwBackwCompute : list float -> Z -> float -> Z -> Z -> float.
Variable can_allocate : Z -> bool.

#[local] Abbreviation computeFlucVec :=
  (computeFlucVec flucMFDFAForwCompute flucMFDFAForwBackwCompute can_allocate).
#[local] Abbreviation computeFlucVec_call :=
  (computeFlucVec_call flucMFDFAForwCompute flucMFDFAForwBackwCompute can_allocate).
#[local] Abbreviation fluc_matrix :=
  (fluc_matrix flucMFDFAForwCompute flucMFDFAForwBackwCompute).

(** C5, as the code has it.  [__init__] has no check on the cleaned series:
    for an input whose entries are all NaN (or that is empty) the constructor
    returns normally with an empty stored series, not yet computed.  The
    rejection comes with the first [computeFlucVec], which raises
    [ValueError] for every choice of arguments and leaves the object as it
    was. *)
Theorem C5_empty_series_constructs (ts : list float)
  (Hnan : Forall (fun x => np_isnan x = true) ts) :
  MFDFA_call ts = Outcome (inr tt) (MFDFA_new ts) [] /\
  tsVec (MFDFA_new ts) = [] /\
  isComputed (MFDFA_new ts) = false /\
  forall nMin q nMax polOrd nStep revSeg,
  exists msg,
    computeFlucVec nMin q nMax polOrd nStep revSeg (MFDFA_new ts)
    = Outcome (inl (ValueError msg)) (MFDFA_new ts) [].
Proof.
  assert (Hts : tsVec (MFDFA_new ts) = []).
  { unfold MFDFA_new. rewrite MFDFA_call_run. simpl.
    induction Hnan as [| x l Hx _ IH]; simpl; [reflexivity |].
    now rewrite Hx. }
  split; [unfold MFDFA_new; now rewrite MFDFA_call_run |].
  split; [exact Hts |].
  split; [reflexivity |].
  intros nMin q nMax polOrd nStep revSeg.
  destruct (first_failing polOrd nStep nMin
              (effective_nMax (MFDFA_new ts) nMax) (tsLen_of (MFDFA_new ts))) as [c |] eqn:Hc.
  - rewrite (computeFlucVec_first_failing _ _ _ _ _ _ _ _ _ _ c Hc).
    destruct c; eexists; reflexivity.
  - apply first_failing_none in Hc. unfold tsLen_of in Hc. rewrite Hts in Hc.
    simpl in Hc. lia.
Qed.


(** C6.  With [nMax] the value after the default has been resolved and N the
    length of the stored series: when some check fails, [computeFlucVec]
    raises the error of the earliest failing check in the order
    polOrd < 1; nStep < 1; nMax < 3 or nMin < 3; nMax <= nMin; nMax > N;
    nMin < polOrd + 2, and leaves the object unchanged; the six errors are
    pairwise different; when no check fails no [ValueError] is raised. *)
Theorem C6_validation_precedence (nMin : Z) (q : pyval) (nMax polOrd nStep : Z)
        (revSeg : bool) (s : MFDFA) :
  match first_failing polOrd nStep nMin (effective_nMax s nMax) (tsLen_of s) with
  | Some c =>
      computeFlucVec nMin q nMax polOrd nStep revSeg s
      = Outcome (inl (check_error polOrd c)) s [] /\
      check_fails polOrd nStep nMin (effective_nMax s nMax) (tsLen_of s) c = true /\
      (forall c', check_fails polOrd nStep nMin (effective_nMax s nMax) (tsLen_of s) c' = true ->
                  (rank c <= rank c')%nat) /\
      (forall c', c' <> c -> check_error polOrd c' <> check_error polOrd c)
  | None =>
      (forall c, check_fails polOrd nStep nMin (effective_nMax s nMax) (tsLen_of s) c = false) /\
      (forall msg, result (computeFlucVec nMin q nMax polOrd nStep revSeg s)
                   <> inl (ValueError msg))
  end.
Proof.
  destruct (first_failing polOrd nStep nMin (effective_nMax s nMax) (tsLen_of s))
    as [c |] eqn:Hc.
  - split; [now apply computeFlucVec_first_failing |].
    destruct (first_failing_earliest _ _ _ _ _ _ Hc) as [Hf He].
    split; [exact Hf |]. split; [exact He |].
    intros c' Hne Heq. apply Hne. now apply check_error_injective in Heq.
  - split.
    + intros c. unfold first_failing in Hc.
      apply (find_none _ _ Hc c). unfold precedence. destruct c; simpl; tauto.
    + intros msg. rewrite (computeFlucVec_valid _ _ _ _ _ _ _ _ _ _ Hc). cbn zeta.
      destruct (accepted_qList q); [| discriminate].
      destruct (in_c_int (tsLen_of s) && in_c_int nStep); [| discriminate].
      destruct (enough_memory _ _ _ _); discriminate.
Qed.



(** C8, the code at the forms of [qList].  On a series of 16 values with
    nMin = 4, nMax = 8 (five scales), a Python float, a list and an ndarray
    are taken and stored as the array of q-orders, and the call returns
    unless an array cannot be allocated; every other form (a string, a tuple
    of floats, a Python int, ...) ends in [NameError] on the unbound name
    [q_list], not in [ValueError]. *)
Theorem C8_qList_forms (q : pyval) :
  match accepted_qList q with
  | Some ql =>
      (if enough_memory can_allocate 5 (length ql) 16
       then exists r, result (computeFlucVec 4 q 8 1 1 false (MFDFA_new (ramp 16))) = inr r
       else result (computeFlucVec 4 q 8 1 1 false (MFDFA_new (ramp 16)))
            = inl MemoryError) /\
      qList (final (computeFlucVec 4 q 8 1 1 false (MFDFA_new (ramp 16)))) = Some ql
  | None =>
      computeFlucVec 4 q 8 1 1 false (MFDFA_new (ramp 16))
      = Outcome (inl (NameError "q_list")) (MFDFA_new (ramp 16)) []
  end /\
  accepted_qList (PyStr "2.0") = None /\
  accepted_qList (PyTuple [2%float; 3%float]) = None /\
  accepted_qList (PyInt 2) = None.
Proof.
  split; [| repeat split; reflexivity].
  rewrite computeFlucVec_valid by reflexivity. cbn zeta.
  destruct (accepted_qList q) as [ql |]; [| reflexivity].
  change (tsLen_of (MFDFA_new (ramp 16))) with 16.
  change (effective_nMax (MFDFA_new (ramp 16)) 8) with 8.
  change (in_c_int 16 && in_c_int 1) with true. cbn iota.
  change (length (np_arange 4 (c_int_add 8 1) 1)) with 5%nat.
  destruct (enough_memory can_allocate 5 (length ql) 16).
  - split; [eexists; reflexivity | reflexivity].
  - split; reflexivity.
Qed.

End ComputeClaims.

(** ** What a method leaves untouched *)

Lemma same_but_listH_refl (s : MFDFA) : same_but_listH s s.
Proof. unfold same_but_listH. tauto. Qed.

Lemma same_but_listH_trans (s1 s2 s3 : MFDFA) :
  same_but_listH s1 s2 -> same_but_listH s2 s3 -> same_but_listH s1 s3.
Proof. unfold same_but_listH. intuition congruence. Qed.

Lemma keeps_ret {A} (a : A) : keeps (ret a).
Proof. intros s. apply same_but_listH_refl. Qed.

Lemma keeps_raise {A} (e : exn) : keeps (@raise A e).
Proof. intros s. apply same_but_listH_refl. Qed.

Lemma keeps_get : keeps get.
Proof. intros s. apply same_but_listH_refl. Qed.

Lemma keeps_print (line : string) : keeps (print line).
Proof. intros s. apply same_but_listH_refl. Qed.

Lemma keeps_lift {A} (r : exn + A) : keeps (lift r).
Proof. intros s. apply same_but_listH_refl. Qed.

Lemma keeps_set_listH (h : list float) : keeps (modify (set_listH h)).
Proof. intros s. unfold same_but_listH. simpl. tauto. Qed.

Lemma keeps_bind {A B} (m : M A) (k : A -> M B) :
  keeps m -> (forall a, keeps (k a)) -> keeps (bind m k).
Proof.
  intros Hm Hk s. unfold bind. specialize (Hm s).
  destruct (m s) as [[e | a] s1 p1]; simpl in *; [exact Hm |].
  eapply same_but_listH_trans; [exact Hm | apply Hk].
Qed.

Lemma keeps_when (b : bool) (m : M unit) : keeps m -> keeps (when b m).
Proof. intros Hm. destruct b; [exact Hm | apply keeps_ret]. Qed.

Lemma keeps_need {A} (o : option A) : keeps (need o).
Proof. destruct o; [apply keeps_ret | apply keeps_raise]. Qed.

Lemma keeps_item {A} (l : list A) (i : nat) : keeps (item l i).
Proof. unfold item. destruct (nth_error l i); [apply keeps_ret | apply keeps_raise]. Qed.

Lemma keeps_item_last {A} (l : list A) : keeps (item_last l).
Proof. destruct l; [apply keeps_raise | apply keeps_item]. Qed.

Lemma keeps_to_c_int (z : Z) : keeps (to_c_int z).
Proof. unfold to_c_int. destruct (_ && _); [apply keeps_ret | apply keeps_raise]. Qed.

Lemma keeps_foldM {A B} (f : B -> A -> M B) (l : list A) (b : B) :
  (forall b x, keeps (f b x)) -> keeps (foldM f l b).
Proof.
  intros Hf. revert b. induction l as [| x l IH]; intros b; simpl.
  - apply keeps_ret.
  - apply keeps_bind; [apply Hf | intros b'; apply IH].
Qed.

Create HintDb keeps.
#[local] Hint Resolve keeps_ret keeps_raise keeps_get keeps_print keeps_lift keeps_set_listH
  keeps_need keeps_item keeps_item_last keeps_to_c_int : keeps.

Ltac keeps_tac :=
  repeat first
    [ progress eauto with keeps
    | apply keeps_bind; [| intro]
    | apply keeps_when
    | apply keeps_foldM; intros
    | match goal with
      | |- keeps (if ?b then _ else _) => destruct b
      | |- keeps (match ?o with Some _ => _ | None => _ end) => destruct o
      end ].

(** ** [fitFlucVec], step by step *)

Lemma set_item_replaced {A} (l : list A) (i : nat) (v : A) :
  (i < length l)%nat -> set_item l i v = Some (replaced l i v).
Proof.
  unfold replaced. revert i. induction l as [| a l IH]; intros i Hi; simpl in *; [lia |].
  destruct i as [| i]; [reflexivity |].
  rewrite IH by lia. reflexivity.
Qed.

Lemma length_replaced {A} (l : list A) (i : nat) (v : A) :
  (i < length l)%nat -> length (replaced l i v) = length l.
Proof.
  intros Hi. unfold replaced. rewrite length_app, length_firstn.
  change (length (v :: skipn (S i) l)) with (S (length (skipn (S i) l))).
  rewrite length_skipn. lia.
Qed.

Section FitFacts.

Variable np_log : float -> float.
Variable np_polyfit1 : list float -> list float -> exn + (float * float).
Variable format_2f : float -> string.

#[local] Abbreviation fitFlucVec := (fitFlucVec np_log np_polyfit1 format_2f).
#[local] Abbreviation fitFlucVec_body := (fitFlucVec_body np_log np_polyfit1 format_2f).
#[local] Abbreviation fit_step := (fit_step np_log np_polyfit1 format_2f).

(** The conversion of the limits comes first; a limit that does not fit a C
    int ends the call before the body. *)
Lemma fitFlucVec_run (nStart nEnd : Z) (base : float) (verbose : bool) (s : MFDFA) :
  fitFlucVec nStart nEnd base verbose s =
  if in_c_int nStart && in_c_int nEnd
  then fitFlucVec_body nStart nEnd base verbose s
  else Outcome (inl OverflowError) s [].
Proof.
  open_fitFlucVec. rewrite !to_c_int_run.
  destruct (in_c_int nStart); [| reflexivity].
  destruct (in_c_int nEnd); reflexivity.
Qed.

Lemma fit_step_keeps (start end_ : Z) (base : float) (verbose : bool)
      (icpt : list float) (i : nat) :
  keeps (fit_step start end_ base verbose icpt i).
Proof. open_fit_step. keeps_tac. Qed.

Lemma fitFlucVec_body_keeps (nStart nEnd : Z) (base : float) (verbose : bool) :
  keeps (fitFlucVec_body nStart nEnd base verbose).
Proof.
  open_fitFlucVec_body. unfold n_first, n_last, self_n, int_truediv.
  keeps_tac; apply fit_step_keeps.
Qed.

Lemma fitFlucVec_keeps (nStart nEnd : Z) (base : float) (verbose : bool) :
  keeps (fitFlucVec nStart nEnd base verbose).
Proof.
  intros s. rewrite fitFlucVec_run.
  destruct (in_c_int nStart && in_c_int nEnd);
    [apply fitFlucVec_body_keeps | apply same_but_listH_refl].
Qed.

Lemma set_listH_same (s : MFDFA) (h : list float) : listH s = Some h -> set_listH h s = s.
Proof. destruct s; simpl; intros ->; reflexivity. Qed.

Lemma firstn_S_replaced {A} (l : list A) (i : nat) (v : A) :
  (i < length l)%nat -> firstn (S i) (replaced l i v) = firstn i l ++ [v].
Proof.
  intros Hi. unfold replaced.
  rewrite firstn_app, length_firstn.
  replace (S i - Nat.min i (length l))%nat with 1%nat by lia.
  rewrite firstn_all2 by (rewrite length_firstn; lia).
  reflexivity.
Qed.

Lemma skipn_nth_error {A} (l : list A) (k : nat) (x : A) :
  nth_error l k = Some x -> skipn k l = x :: skipn (S k) l.
Proof.
  revert k. induction l as [| a l IH]; intros k Hk.
  - destruct k; discriminate.
  - destruct k as [| k]; simpl in *; [congruence | now apply IH].
Qed.

Lemma fit_step_run (start end_ : Z) (base : float) (verbose : bool) (icpt : list float)
      (i : nat) (s : MFDFA) (ns : list Z) (Fm : list (list float)) (row h qs : list float)
      (q : float) :
  INT_MIN <= end_ + 1 <= INT_MAX ->
  n s = Some ns -> F s = Some Fm -> nth_error Fm i = Some row ->
  listH s = Some h -> (i < length h)%nat -> (i < length icpt)%nat ->
  qList s = Some qs -> nth_error qs i = Some q ->
  fit_step start end_ base verbose icpt i s =
  match np_polyfit1
          (map (fun w => log_base np_log base (float_of_Z w)) (py_slice ns start (end_ + 1)))
          (map (log_base np_log base) (py_slice row start (end_ + 1))) with
  | inl e => Outcome (inl e) s []
  | inr p =>
      Outcome (inr (replaced icpt i (snd p))) (set_listH (replaced h i (fst p)) s)
              (if verbose then [msg_fit_result format_2f q (snd p) (fst p)] else [])
  end.
Proof.
  intros Hend Hn HF Hrow Hh Hi Hic Hq Hqi.
  open_fit_step. rewrite (c_int_add_fits end_ 1 Hend).
  run. rewrite Hn, HF. unfold need, item. run.
  rewrite Hrow. run.
  fold (log_base np_log base).
  change (fun w : Z => PrimFloat.div (np_log (float_of_Z w)) (np_log base))
    with (fun w : Z => log_base np_log base (float_of_Z w)).
  change (fun v : float => PrimFloat.div (np_log v) (np_log base))
    with (log_base np_log base).
  destruct (np_polyfit1 _ _) as [e | p]; run; [reflexivity |].
  rewrite Hh. run. rewrite (set_item_replaced h i _ Hi). run.
  rewrite (set_item_replaced icpt i _ Hic). run.
  destruct verbose.
  - unfold when. simpl. rewrite Hq. run. rewrite Hqi.
    unfold bind, ret, print. simpl. reflexivity.
  - run. reflexivity.
Qed.

Lemma fit_loop_run (start end_ : Z) (base : float) (verbose : bool) (ns : list Z)
      (Fm : list (list float)) (qs : list float) :
  INT_MIN <= end_ + 1 <= INT_MAX ->
  length Fm = length qs ->
  forall (m k : nat) (s : MFDFA) (h icpt : list float),
    n s = Some ns -> F s = Some Fm -> qList s = Some qs -> listH s = Some h ->
    length h = length qs -> length icpt = length qs -> (k + m = length qs)%nat ->
    match map_exn (fun row =>
             np_polyfit1
               (map (fun w => log_base np_log base (float_of_Z w))
                    (py_slice ns start (end_ + 1)))
               (map (log_base np_log base) (py_slice row start (end_ + 1))))
            (skipn k Fm) with
    | inr ps =>
        result (foldM (fit_step start end_ base verbose) (seq k m) icpt s)
        = inr (firstn k icpt ++ map snd ps) /\
        final (foldM (fit_step start end_ base verbose) (seq k m) icpt s)
        = set_listH (firstn k h ++ map fst ps) s
    | inl e =>
        result (foldM (fit_step start end_ base verbose) (seq k m) icpt s) = inl e
    end.
Proof.
  intros Hend HFq. induction m as [| m IH]; intros k s h icpt Hn HF Hq Hh Hlh Hli Hk.
  - rewrite skipn_all2 by lia. simpl.
    rewrite !firstn_all2, !app_nil_r by lia.
    split; [reflexivity | now rewrite set_listH_same].
  - destruct (nth_error Fm k) as [row |] eqn:Hrow;
      [| apply nth_error_None in Hrow; lia].
    destruct (nth_error qs k) as [q |] eqn:Hqk;
      [| apply nth_error_None in Hqk; lia].
    rewrite (skipn_nth_error _ _ _ Hrow).
    cbn [seq foldM map_exn]. unfold bind.
    rewrite (fit_step_run start end_ base verbose icpt k s ns Fm row h qs q)
      by (assumption || lia).
    destruct (np_polyfit1 _ _) as [e | p]; [reflexivity |].
    cbn [result final printed].
    specialize (IH (S k) (set_listH (replaced h k (fst p)) s)
                   (replaced h k (fst p)) (replaced icpt k (snd p))).
    rewrite !length_replaced in IH by lia.
    specialize (IH Hn HF Hq eq_refl Hlh Hli ltac:(lia)).
    destruct (map_exn _ (skipn (S k) Fm)) as [e | ps]; [exact IH |].
    destruct IH as [IHr IHf]. cbn [result final map].
    rewrite IHr, IHf. rewrite !firstn_S_replaced by lia.
    rewrite <- !app_assoc. split; reflexivity.
Qed.

End FitFacts.

(** ** Slices of the scale set and of the matrix rows *)

Lemma py_slice_window {A} (l : list A) (i j : nat) :
  (i <= j < length l)%nat ->
  py_slice l (Z.of_nat i) (Z.of_nat j + 1) = firstn (S j - i) (skipn i l).
Proof.
  intros Hij. unfold py_slice, clamp_index.
  destruct (Z.ltb_spec (Z.of_nat i) 0); [lia |].
  destruct (Z.ltb_spec (Z.of_nat j + 1) 0); [lia |].
  rewrite !Z.min_l by lia.
  f_equal; [lia | f_equal; lia].
Qed.

Lemma filter_window {A} (p : A -> bool) (l : list A) :
  forall i e : nat,
    (forall k x, nth_error l k = Some x -> p x = ((i <=? k) && (k <? e))%nat) ->
    filter p l = firstn (e - i) (skipn i l).
Proof.
  induction l as [| x l IH]; intros i e Hp.
  - now rewrite skipn_nil, firstn_nil.
  - pose proof (Hp 0%nat x eq_refl) as Hx.
    assert (Hp' : forall i' e', (forall k, ((i <=? S k) && (S k <? e) = (i' <=? k) && (k <? e'))%nat) ->
                                filter p l = firstn (e' - i') (skipn i' l)).
    { intros i' e' Hk. apply IH. intros k y Hy. rewrite <- Hk. now apply (Hp (S k)). }
    cbn [filter]. rewrite Hx.
    destruct i as [| i].
    + destruct e as [| e]; simpl.
      * apply (Hp' 0%nat 0%nat). intros k. reflexivity.
      * f_equal. rewrite (Hp' 0%nat e); [now rewrite Nat.sub_0_r |].
        intros k. reflexivity.
    + simpl. destruct e as [| e].
      * rewrite (Hp' i 0%nat); [reflexivity |].
        intros k. now rewrite !andb_false_r.
      * rewrite (Hp' i e); [reflexivity |].
        intros k. reflexivity.
Qed.

Lemma nth_error_combine {A B} (l1 : list A) (l2 : list B) (k : nat) (x : A) (y : B) :
  nth_error (combine l1 l2) k = Some (x, y) ->
  nth_error l1 k = Some x /\ nth_error l2 k = Some y.
Proof.
  revert l2 k. induction l1 as [| a l1 IH]; intros l2 k H.
  - destruct k; discriminate.
  - destruct l2 as [| b l2]; [destruct k; discriminate |].
    destruct k as [| k]; simpl in *; [split; congruence | now apply IH].
Qed.

Lemma map_snd_combine {A B} (l1 : list A) (l2 : list B) :
  length l2 = length l1 -> map snd (combine l1 l2) = l2.
Proof.
  revert l2. induction l1 as [| a l1 IH]; intros [| b l2] H; simpl in *;
    try reflexivity; try discriminate.
  f_equal. apply IH. lia.
Qed.

Lemma last_nth_error {A} (l : list A) (d : A) :
  l <> [] -> nth_error l (length l - 1) = Some (last l d).
Proof.
  induction l as [| a l IH]; [congruence |]. intros _.
  destruct l as [| b l]; [reflexivity |].
  replace (length (a :: b :: l) - 1)%nat with (S (length (b :: l) - 1))
    by (simpl; lia).
  cbn [nth_error]. rewrite IH by discriminate. reflexivity.
Qed.

Lemma map_exn_ext_in {A B} (f g : A -> exn + B) (l : list A) :
  (forall x, In x l -> f x = g x) -> map_exn f l = map_exn g l.
Proof.
  induction l as [| x l IH]; intros H; simpl; [reflexivity |].
  rewrite (H x) by now left.
  rewrite IH by (intros y Hy; apply H; now right). reflexivity.
Qed.

Lemma map_exn_length {A B} (f : A -> exn + B) (l : list A) (ys : list B) :
  map_exn f l = inr ys -> length ys = length l.
Proof.
  revert ys. induction l as [| x l IH]; intros ys; simpl.
  - intros H. injection H as <-. reflexivity.
  - destruct (f x); [discriminate |].
    destruct (map_exn f l); [discriminate |].
    intros H. injection H as <-. simpl. f_equal. now apply IH.
Qed.

(** The scale set of a computed state, by position. *)
Section ScaleWindow.

Variables nMin nMax st : Z.
Hypothesis Hlt : nMin < nMax.
Hypothesis Hst : 1 <= st.

#[local] Abbreviation ns := (np_arange nMin (nMax + 1) st).

Lemma scales_nonempty : ns <> [].
Proof.
  destruct (np_arange_scale_length nMin nMax st Hlt ltac:(lia)) as [H _].
  destruct (np_arange _ _ _); [simpl in H; lia | discriminate].
Qed.

Lemma scales_hd : hd 0 ns = nMin.
Proof.
  pose proof scales_nonempty as Hne.
  pose proof (np_arange_nth_error nMin (nMax + 1) st 0) as H0.
  destruct ns as [| x l]; [congruence |]. simpl in *.
  injection H0 as ->. lia.
Qed.

Lemma scales_last : last ns 0 = nMin + (Z.of_nat (length ns) - 1) * st.
Proof.
  pose proof scales_nonempty as Hne.
  pose proof (last_nth_error ns 0 Hne) as Hl.
  rewrite np_arange_nth_error in Hl.
  assert (length ns <> 0)%nat by (destruct ns; simpl; congruence).
  destruct (Nat.ltb_spec (length ns - 1) (length ns)); [| lia].
  injection Hl as <-. f_equal. f_equal. lia.
Qed.

Lemma scales_contains (x : Z) :
  np_contains x ns = true <->
  exists i, (i < length ns)%nat /\ x = nMin + Z.of_nat i * st.
Proof.
  unfold np_contains. rewrite existsb_exists. split.
  - intros (y & Hy & Hxy). apply Z.eqb_eq in Hxy. subst y.
    now apply np_arange_In in Hy.
  - intros Hi. exists x. split; [now apply np_arange_In | apply Z.eqb_refl].
Qed.

Lemma scales_in_range (i j k : nat) (w : Z) :
  nth_error ns k = Some w ->
  in_range (nMin + Z.of_nat i * st) (nMin + Z.of_nat j * st) w
  = ((i <=? k) && (k <? S j))%nat.
Proof.
  intros Hk. rewrite np_arange_nth_error in Hk.
  destruct (_ <? _)%nat in Hk; [| discriminate]. injection Hk as <-.
  unfold in_range.
  destruct (Nat.leb_spec i k), (Nat.ltb_spec k (S j)); simpl;
    zbool; simpl; try reflexivity; nia.
Qed.

Lemma scales_slice (i j : nat) :
  (i <= j < length ns)%nat ->
  py_slice ns (Z.of_nat i) (Z.of_nat j + 1)
  = sub_scales (nMin + Z.of_nat i * st) (nMin + Z.of_nat j * st) ns.
Proof.
  intros Hij. rewrite py_slice_window by exact Hij.
  unfold sub_scales. symmetry. apply filter_window.
  intros k w Hk. now apply scales_in_range.
Qed.

Lemma row_slice (i j : nat) (row : list float) :
  (i <= j < length ns)%nat -> length row = length ns ->
  py_slice row (Z.of_nat i) (Z.of_nat j + 1)
  = sub_row (nMin + Z.of_nat i * st) (nMin + Z.of_nat j * st) ns row.
Proof.
  intros Hij Hrow. rewrite py_slice_window by lia.
  unfold sub_row.
  rewrite (filter_window _ (combine ns row) i (S j)).
  - rewrite <- firstn_map, <- skipn_map, map_snd_combine by exact Hrow. reflexivity.
  - intros k [w v] Hk. apply nth_error_combine in Hk. simpl.
    now apply scales_in_range.
Qed.

End ScaleWindow.

(** ** [fitFlucVec] on a computed state *)

Lemma bind_run_quiet {A B} (m : M A) (k : A -> M B) (s s' : MFDFA) (a : A) :
  m s = Outcome (inr a) s' [] -> bind m k s = k a s'.
Proof. intros H. unfold bind. rewrite H. simpl. destruct (k a s'); reflexivity. Qed.

Lemma bind_result_inl {A B} (m : M A) (k : A -> M B) (s : MFDFA) (e : exn) :
  result (m s) = inl e -> result (bind m k s) = inl e.
Proof. intros H. unfold bind. rewrite H. reflexivity. Qed.

Lemma bind_result_inr {A B} (m : M A) (k : A -> M B) (s : MFDFA) (a : A) :
  result (m s) = inr a ->
  result (bind m k s) = result (k a (final (m s))) /\
  final (bind m k s) = final (k a (final (m s))).
Proof. intros H. unfold bind. rewrite H. split; reflexivity. Qed.

Lemma valid_limits_iff (ns : list Z) (a b : Z) :
  valid_limits ns a b = true <->
  a <= b /\ hd 0 ns <= a /\ b <= last ns 0 /\ In a ns /\ In b ns.
Proof.
  unfold valid_limits, np_contains.
  rewrite !andb_true_iff, !Z.leb_le, !existsb_exists.
  split.
  - intros ((((H1 & H2) & H3) & (x & Hx & Hax)) & (y & Hy & Hby)).
    apply Z.eqb_eq in Hax, Hby. subst x y. tauto.
  - intros (H1 & H2 & H3 & H4 & H5).
    split; [split; [tauto |] |].
    + exists a. split; [exact H4 | apply Z.eqb_refl].
    + exists b. split; [exact H5 | apply Z.eqb_refl].
Qed.

Section FitComputed.

Variable np_log : float -> float.
Variable np_polyfit1 : list float -> list float -> exn + (float * float).
Variable format_2f : float -> string.
Variable s : MFDFA.
Variables nMin nMax : Z.
Variable qs : list float.
Variable Fm : list (list float).
Hypothesis Hc : computed s nMin nMax qs Fm.

#[local] Abbreviation fitFlucVec := (fitFlucVec np_log np_polyfit1 format_2f).
#[local] Abbreviation fitFlucVec_body := (fitFlucVec_body np_log np_polyfit1 format_2f).
#[local] Abbreviation ns := (np_arange nMin (nMax + 1) (nStep s)).

Lemma self_n_run {B} (k : list Z -> M B) : bind self_n k s = k ns s.
Proof.
  unfold self_n. rewrite bind_assoc_run, bind_get_run.
  rewrite (computed_n _ _ _ _ _ Hc). unfold need. now run.
Qed.

Lemma n_first_run {B} (k : Z -> M B) : bind n_first k s = k (hd 0 ns) s.
Proof.
  unfold n_first. rewrite bind_assoc_run, self_n_run. unfold item.
  pose proof (scales_nonempty nMin nMax (nStep s)
                (proj1 (computed_nMax _ _ _ _ _ Hc)) (computed_nStep _ _ _ _ _ Hc)) as Hne.
  destruct ns as [| x l]; [congruence |]. simpl. now run.
Qed.

Lemma n_last_run {B} (k : Z -> M B) : bind n_last k s = k (last ns 0) s.
Proof.
  unfold n_last. rewrite bind_assoc_run, self_n_run.
  pose proof (scales_nonempty nMin nMax (nStep s)
                (proj1 (computed_nMax _ _ _ _ _ Hc)) (computed_nStep _ _ _ _ _ Hc)) as Hne.
  pose proof (last_nth_error ns 0 Hne) as Hl.
  unfold item_last, item. destruct ns as [| x l]; [congruence |].
  rewrite Hl. now run.
Qed.

Lemma resolve_nStart_run {B} (nStart : Z) (k : Z -> M B) :
  bind (if nStart =? -999 then n_first else ret nStart) k s
  = k (effective_nStart ns nStart) s.
Proof.
  unfold effective_nStart. destruct (nStart =? -999); [apply n_first_run | now run].
Qed.

Lemma resolve_nEnd_run {B} (nEnd : Z) (k : Z -> M B) :
  bind (if nEnd =? -999 then n_last else ret nEnd) k s
  = k (effective_nEnd ns nEnd) s.
Proof.
  unfold effective_nEnd. destruct (nEnd =? -999); [apply n_last_run | now run].
Qed.

Lemma outside_run {B} (a b : Z) (k : bool -> M B) :
  bind (if a <? hd 0 ns then ret true else nl <- n_last ;; ret (b >? nl)) k s
  = k ((a <? hd 0 ns) || (b >? last ns 0)) s.
Proof.
  destruct (a <? hd 0 ns); simpl; [now run |].
  rewrite bind_assoc_run, n_last_run. now run.
Qed.

(** The three range checks, in the order of the code. *)
Lemma fit_body_checks (nStart nEnd : Z) (base : float) (verbose : bool) :
  let a := effective_nStart ns nStart in
  let b := effective_nEnd ns nEnd in
  valid_limits ns a b = false ->
  fitFlucVec_body nStart nEnd base verbose s =
  Outcome (inl (ValueError
                  (if a >? b then msg_nEnd_nStart
                   else if (a <? hd 0 ns) || (b >? last ns 0)
                        then msg_fit_interval (hd 0 ns) (last ns 0)
                        else msg_fit_member))) s [].
Proof.
  cbn zeta. intros Hv.
  open_fitFlucVec_body. rewrite bind_get_run.
  rewrite (computed_flag _ _ _ _ _ Hc).
  rewrite resolve_nStart_run, resolve_nEnd_run.
  destruct (_ >? _) eqn:Hgt; [now run |].
  rewrite bind_when_false_run, n_first_run, outside_run.
  destruct (_ || _) eqn:Hout.
  { unfold when. rewrite !bind_assoc_run, n_first_run, bind_assoc_run, n_last_run.
    now run. }
  rewrite bind_when_false_run, self_n_run.
  destruct (negb _ || negb _) eqn:Hmem; [now run |].
  exfalso. unfold valid_limits in Hv.
  apply orb_false_iff in Hout. destruct Hout as [Ho1 Ho2].
  apply orb_false_iff in Hmem. destruct Hmem as [Hm1 Hm2].
  apply negb_false_iff in Hm1, Hm2. rewrite Hm1, Hm2 in Hv.
  rewrite Z.gtb_ltb in Hgt, Ho2.
  revert Hv Hgt Ho1 Ho2. zbool; simpl; try discriminate; lia.
Qed.

Lemma valid_limits_positions (a b : Z) :
  valid_limits ns a b = true ->
  exists i j, (i <= j < length ns)%nat /\
              a = nMin + Z.of_nat i * nStep s /\ b = nMin + Z.of_nat j * nStep s.
Proof.
  pose proof (computed_nStep _ _ _ _ _ Hc) as Hst.
  pose proof (proj1 (computed_nMax _ _ _ _ _ Hc)) as Hlt.
  unfold valid_limits. rewrite !andb_true_iff.
  intros ((((Hab & _) & _) & Ha) & Hb).
  apply (scales_contains nMin nMax (nStep s)) in Ha, Hb.
  destruct Ha as (i & Hi & Ha). destruct Hb as (j & Hj & Hb).
  exists i, j. apply Z.leb_le in Hab. repeat split; try assumption. nia.
Qed.

(** Limits that pass the checks fit a C int. *)
Lemma valid_limits_in_c_int (nStart nEnd : Z) :
  valid_limits ns (effective_nStart ns nStart) (effective_nEnd ns nEnd) = true ->
  in_c_int nStart && in_c_int nEnd = true.
Proof.
  intros Hv.
  pose proof (computed_nStep _ _ _ _ _ Hc) as Hst.
  pose proof (computed_nMax _ _ _ _ _ Hc) as [Hlt Hmax].
  pose proof (computed_nMin _ _ _ _ _ Hc) as Hmin.
  apply valid_limits_iff in Hv. destruct Hv as (_ & _ & _ & Hina & Hinb).
  apply (np_arange_scale_range nMin nMax (nStep s)) in Hina, Hinb; try lia.
  unfold effective_nStart in Hina. unfold effective_nEnd in Hinb.
  apply andb_true_iff. unfold in_c_int, INT_MIN, INT_MAX in *.
  split; apply andb_true_iff; split; apply Z.leb_le.
  - destruct (Z.eqb_spec nStart (-999)); lia.
  - destruct (Z.eqb_spec nStart (-999)); lia.
  - destruct (Z.eqb_spec nEnd (-999)); lia.
  - destruct (Z.eqb_spec nEnd (-999)); lia.
Qed.

(** The checks on limits that fit a C int. *)
Lemma fitFlucVec_checks (nStart nEnd : Z) (base : float) (verbose : bool) :
  let a := effective_nStart ns nStart in
  let b := effective_nEnd ns nEnd in
  in_c_int nStart && in_c_int nEnd = true ->
  valid_limits ns a b = false ->
  fitFlucVec nStart nEnd base verbose s =
  Outcome (inl (ValueError
                  (if a >? b then msg_nEnd_nStart
                   else if (a <? hd 0 ns) || (b >? last ns 0)
                        then msg_fit_interval (hd 0 ns) (last ns 0)
                        else msg_fit_member))) s [].
Proof.
  cbn zeta. intros Hint Hv.
  rewrite fitFlucVec_run, Hint. now apply fit_body_checks.
Qed.

(** Limits that fail a check, or do not fit a C int, end the call in an
    exception with the object unchanged. *)
Lemma fitFlucVec_invalid (nStart nEnd : Z) (base : float) (verbose : bool) :
  valid_limits ns (effective_nStart ns nStart) (effective_nEnd ns nEnd) = false ->
  exists e, fitFlucVec nStart nEnd base verbose s = Outcome (inl e) s [].
Proof.
  intros Hv. rewrite fitFlucVec_run.
  destruct (in_c_int nStart && in_c_int nEnd); [| eexists; reflexivity].
  rewrite (fit_body_checks nStart nEnd base verbose Hv). eexists; reflexivity.
Qed.

(** Past the checks: one fit per row of the matrix. *)
Lemma fit_body_fits (nStart nEnd : Z) (base : float) (verbose : bool) :
  let a := effective_nStart ns nStart in
  let b := effective_nEnd ns nEnd in
  valid_limits ns a b = true ->
  match map_exn (fit_row np_log np_polyfit1 base a b ns) Fm with
  | inr ps =>
      result (fitFlucVec_body nStart nEnd base verbose s)
      = inr (Some (map fst ps, map snd ps)) /\
      final (fitFlucVec_body nStart nEnd base verbose s) = set_listH (map fst ps) s
  | inl e => result (fitFlucVec_body nStart nEnd base verbose s) = inl e
  end.
Proof.
  cbn zeta. intros Hv.
  pose proof (computed_nStep _ _ _ _ _ Hc) as Hst.
  pose proof (computed_nMax _ _ _ _ _ Hc) as [Hlt Hmax].
  pose proof (computed_nMin _ _ _ _ _ Hc) as Hmin.
  pose proof (scales_hd nMin nMax (nStep s) Hlt Hst) as Hhd.
  pose proof (scales_last nMin nMax (nStep s) Hlt Hst) as Hlast.
  destruct (np_arange_scale_length nMin nMax (nStep s) Hlt ltac:(lia)) as [Hone Hceil].
  destruct (valid_limits_positions _ _ Hv) as (i & j & Hij & Ha & Hb).
  apply valid_limits_iff in Hv. destruct Hv as (Hab & Hlo & Hhi & Hina & Hinb).
  set (a := effective_nStart ns nStart) in *.
  set (b := effective_nEnd ns nEnd) in *.
  (* the fits of the code are the fits over the sub-range *)
  assert (Hfit : map_exn (fun row =>
                     np_polyfit1
                       (map (fun w => log_base np_log base (float_of_Z w))
                            (py_slice ns (Z.of_nat i) (Z.of_nat j + 1)))
                       (map (log_base np_log base)
                            (py_slice row (Z.of_nat i) (Z.of_nat j + 1)))) Fm
                 = map_exn (fit_row np_log np_polyfit1 base a b ns) Fm).
  { apply map_exn_ext_in. intros row Hrow. unfold fit_row.
    pose proof (computed_cols _ _ _ _ _ Hc) as Hcols.
    rewrite Forall_forall in Hcols. specialize (Hcols row Hrow).
    rewrite (scales_slice nMin nMax (nStep s) Hst i j Hij).
    rewrite (row_slice nMin nMax (nStep s) Hst i j row Hij Hcols).
    rewrite <- Ha, <- Hb. reflexivity. }
  (* the checks pass *)
  assert (Hrange : forall k : nat, (k < length ns)%nat -> in_c_int (Z.of_nat k) = true).
  { intros k Hk. unfold in_c_int, INT_MIN, INT_MAX in *.
    apply andb_true_iff. split; apply Z.leb_le; nia. }
  assert (Hend : INT_MIN <= Z.of_nat j + 1 <= INT_MAX).
  { unfold INT_MIN, INT_MAX in *. nia. }
  assert (Hpre : fitFlucVec_body nStart nEnd base verbose s =
                 bind (when verbose (print (msg_fit_limits a b)))
                      (fun _ : unit =>
                         list_H_intercept <-
                           foldM (fit_step np_log np_polyfit1 format_2f (Z.of_nat i)
                                           (Z.of_nat j) base verbose)
                                 (seq 0 (length qs)) (np_zeros (length qs)) ;;
                         s0 <- get ;; h <- need (listH s0) ;;
                         ret (Some (h, list_H_intercept)))
                      (set_listH (np_zeros (length qs)) s)).
  { open_fitFlucVec_body. rewrite bind_get_run.
    rewrite (computed_flag _ _ _ _ _ Hc).
    rewrite resolve_nStart_run, resolve_nEnd_run. fold a b.
    replace (a >? b) with false by (symmetry; rewrite Z.gtb_ltb; apply Z.ltb_ge; lia).
    rewrite bind_when_false_run, n_first_run, outside_run.
    replace (a <? hd 0 ns) with false by (symmetry; apply Z.ltb_ge; lia).
    replace (b >? last ns 0) with false
      by (symmetry; rewrite Z.gtb_ltb; apply Z.ltb_ge; lia).
    cbn [orb]. rewrite bind_when_false_run, self_n_run.
    replace (np_contains a ns) with true
      by (symmetry; apply existsb_exists; exists a; split; [exact Hina | apply Z.eqb_refl]).
    replace (np_contains b ns) with true
      by (symmetry; apply existsb_exists; exists b; split; [exact Hinb | apply Z.eqb_refl]).
    cbn [negb orb]. rewrite bind_when_false_run.
    rewrite (computed_qList _ _ _ _ _ Hc). unfold need at 1. rewrite bind_ret_run.
    cbn zeta. rewrite n_first_run, Hhd.
    unfold int_truediv.
    replace (nStep s =? 0) with false by (symmetry; apply Z.eqb_neq; lia).
    rewrite bind_ret_run.
    replace (Z.quot (a - nMin) (nStep s)) with (Z.of_nat i)
      by (rewrite Ha;
          replace (nMin + Z.of_nat i * nStep s - nMin) with (Z.of_nat i * nStep s) by lia;
          symmetry; apply Z.quot_mul; lia).
    rewrite to_c_int_run, Hrange by lia.
    rewrite n_first_run, Hhd, bind_ret_run.
    replace (Z.quot (b - nMin) (nStep s)) with (Z.of_nat j)
      by (rewrite Hb;
          replace (nMin + Z.of_nat j * nStep s - nMin) with (Z.of_nat j * nStep s) by lia;
          symmetry; apply Z.quot_mul; lia).
    rewrite to_c_int_run, Hrange by lia.
    rewrite bind_modify_run. reflexivity. }
  rewrite Hpre. clear Hpre.
  (* the loop *)
  assert (Hloop := fit_loop_run np_log np_polyfit1 format_2f
                     (Z.of_nat i) (Z.of_nat j) base verbose ns Fm qs Hend
                     (computed_rows _ _ _ _ _ Hc) (length qs) 0%nat
                     (set_listH (np_zeros (length qs)) s)
                     (np_zeros (length qs)) (np_zeros (length qs))).
  cbn [skipn firstn app] in Hloop. rewrite Hfit in Hloop.
  specialize (Hloop (computed_n _ _ _ _ _ Hc) (computed_F _ _ _ _ _ Hc)
                    (computed_qList _ _ _ _ _ Hc) eq_refl).
  unfold np_zeros in Hloop at 1 2. rewrite !repeat_length in Hloop.
  specialize (Hloop eq_refl eq_refl eq_refl).
  assert (Hprint : forall B (k : unit -> M B) s1,
             result (bind (when verbose (print (msg_fit_limits a b))) k s1) = result (k tt s1) /\
             final (bind (when verbose (print (msg_fit_limits a b))) k s1) = final (k tt s1)).
  { intros B k s1. destruct verbose; [split; reflexivity |].
    rewrite bind_when_false_run. split; reflexivity. }
  destruct (Hprint _ (fun _ : unit =>
              list_H_intercept <-
                foldM (fit_step np_log np_polyfit1 format_2f (Z.of_nat i) (Z.of_nat j)
                                base verbose)
                      (seq 0 (length qs)) (np_zeros (length qs)) ;;
              s0 <- get ;; h <- need (listH s0) ;; ret (Some (h, list_H_intercept)))
              (set_listH (np_zeros (length qs)) s)) as [Hpr Hpf].
  rewrite Hpr, Hpf. clear Hpr Hpf Hprint.
  destruct (map_exn (fit_row np_log np_polyfit1 base a b ns) Fm) as [e | ps].
  - now apply bind_result_inl.
  - destruct Hloop as [Hr Hf].
    destruct (bind_result_inr _ (fun list_H_intercept =>
                s0 <- get ;; h <- need (listH s0) ;; ret (Some (h, list_H_intercept)))
                _ _ Hr) as [Er Ef].
    rewrite Er, Ef, Hf. rewrite !bind_get_run. simpl. split; reflexivity.
Qed.

Lemma fitFlucVec_fits (nStart nEnd : Z) (base : float) (verbose : bool) :
  let a := effective_nStart ns nStart in
  let b := effective_nEnd ns nEnd in
  valid_limits ns a b = true ->
  match map_exn (fit_row np_log np_polyfit1 base a b ns) Fm with
  | inr ps =>
      result (fitFlucVec nStart nEnd base verbose s) = inr (Some (map fst ps, map snd ps)) /\
      final (fitFlucVec nStart nEnd base verbose s) = set_listH (map fst ps) s
  | inl e => result (fitFlucVec nStart nEnd base verbose s) = inl e
  end.
Proof.
  cbn zeta. intros Hv.
  rewrite fitFlucVec_run, (valid_limits_in_c_int _ _ Hv).
  now apply fit_body_fits.
Qed.

End FitComputed.

(** ** The states of a session *)

Lemma computeMassExponents_final (s : MFDFA) : final (computeMassExponents s) = s.
Proof.
  unfold computeMassExponents. rewrite bind_get_run.
  destruct (isComputed s); [| reflexivity].
  unfold np_mul_attr.
  destruct (listH s) as [[| x l] |], (qList s) as [[| y l'] |]; try reflexivity;
    unfold bind, lift; simpl; destruct (np_binop _ _ _); reflexivity.
Qed.

(** With [isComputed] set, [computeMassExponents] raises or returns an array. *)
Lemma computeMassExponents_array (s : MFDFA) :
  isComputed s = true -> result (computeMassExponents s) <> inr None.
Proof.
  intros Hc. unfold computeMassExponents. rewrite bind_get_run, Hc.
  unfold bind. destruct (np_mul_attr (listH s) (qList s) s) as [[e | a] s1 p1];
    simpl; discriminate.
Qed.

Lemma computeMultifractalSpectrum_final (s : MFDFA) :
  final (computeMultifractalSpectrum s) = s.
Proof.
  assert (Hk : forall A (m : M A), (forall s, final (m s) = s) ->
               forall B (k : A -> M B), (forall a s, final (k a s) = s) ->
               forall s, final (bind m k s) = s).
  { intros A m Hm B k Hk s0. unfold bind. specialize (Hm s0).
    destruct (m s0) as [[e | a] s1 p1]; simpl in *; [exact Hm |].
    rewrite Hk. exact Hm. }
  assert (Hneed : forall A (o : option A) s, final (need o s) = s)
    by (intros A [a |] s0; reflexivity).
  assert (Hitem : forall A (l : list A) i s, final (item l i s) = s)
    by (intros A l i s0; unfold item; destruct (nth_error l i); reflexivity).
  assert (Hlift : forall A (r : exn + A) s, final (lift r s) = s) by reflexivity.
  unfold computeMultifractalSpectrum. rewrite bind_get_run.
  destruct (isComputed s); [| reflexivity].
  apply Hk; [apply Hneed | intros q s0].
  destruct (1 <? Z.of_nat (length q)); [| reflexivity].
  apply Hk; [apply computeMassExponents_final | intros r s1].
  apply Hk; [apply Hneed | intros tau s2].
  rewrite bind_get_run.
  apply Hk; [apply Hneed | intros q' s3].
  apply Hk; [apply Hitem | intros q1 s4].
  apply Hk; [apply Hitem | intros q0 s5].
  apply Hk; [apply Hlift | intros qa s6].
  apply Hk; [apply Hlift | intros mf s7].
  reflexivity.
Qed.

Lemma computed_same_but_listH (s s' : MFDFA) (nMin nMax : Z) (qs : list float)
      (Fm : list (list float)) :
  same_but_listH s s' -> computed s nMin nMax qs Fm -> computed s' nMin nMax qs Fm.
Proof.
  intros (Hn & _ & HF & Hq & Hst & Hf) [c1 c2 c3 c4 c5 c6 c7 c8 c9].
  constructor; rewrite ?Hn, ?HF, ?Hq, ?Hst, ?Hf; assumption.
Qed.

Lemma fluc_matrix_shape (fl fb : list float -> Z -> float -> Z -> Z -> float) (revSeg : bool)
      (ts : list float) (vecn : list Z) (ql : list float) (N polOrd : Z) :
  length (fluc_matrix fl fb revSeg ts vecn ql N polOrd) = length ql /\
  Forall (fun row => length row = length vecn) (fluc_matrix fl fb revSeg ts vecn ql N polOrd).
Proof.
  unfold fluc_matrix. split; [apply length_map |].
  apply Forall_forall. intros row Hrow. apply in_map_iff in Hrow.
  destruct Hrow as (q & <- & _). apply length_map.
Qed.

Lemma np_arange_empty (a b st : Z) : b <= a -> 0 < st -> np_arange a b st = [].
Proof.
  intros Hba Hst. unfold np_arange.
  pose proof (ceil_div_bounds (b - a) st Hst) as Hc.
  replace (Z.to_nat (ceil_div (b - a) st)) with 0%nat by nia. reflexivity.
Qed.

(** The scale set at the largest C int. *)
Lemma scale_set_wraps (nMin st : Z) :
  INT_MIN <= nMin -> 0 < st -> np_arange nMin (c_int_add INT_MAX 1) st = [].
Proof. intros Hmin Hst. rewrite c_int_add_wraps. now apply np_arange_empty. Qed.

Lemma computed_empty_same_but_listH (s s' : MFDFA) (qs : list float) :
  same_but_listH s s' -> computed_empty s qs -> computed_empty s' qs.
Proof.
  intros (Hn & Hts & HF & Hq & Hst & Hf) [c1 c2 c3 c4 c5 c6].
  constructor; unfold tsLen_of in *; rewrite ?Hn, ?Hts, ?HF, ?Hq, ?Hst, ?Hf; assumption.
Qed.

Section Sessions.

Variable flucMFDFAForwCompute : list float -> Z -> float -> Z -> Z -> float.
Variable flucMFDFAForwBackwCompute : list float -> Z -> float -> Z -> Z -> float.
Variable np_log : float -> float.
Variable np_polyfit1 : list float -> list float -> exn + (float * float).
Variable format_2f : float -> string.
Variable can_allocate : Z -> bool.

#[local] Abbreviation computeFlucVec :=
  (computeFlucVec flucMFDFAForwCompute flucMFDFAForwBackwCompute can_allocate).
#[local] Abbreviation fluc_matrix :=
  (fluc_matrix flucMFDFAForwCompute flucMFDFAForwBackwCompute).
#[local] Abbreviation fitFlucVec := (fitFlucVec np_log np_polyfit1 format_2f).
#[local] Abbreviation reachable :=
  (reachable flucMFDFAForwCompute flucMFDFAForwBackwCompute np_log np_polyfit1 format_2f
             can_allocate).

(** The three ways a call can end: an exception before anything is written,
    the arrays made and stored, or no memory for them once the q-orders and
    the step have been written. *)
Lemma computeFlucVec_cases (nMin : Z) (q : pyval) (nMax polOrd nStep : Z) (revSeg : bool)
      (s : MFDFA) :
  (exists e, e <> MemoryError /\
             computeFlucVec nMin q nMax polOrd nStep revSeg s = Outcome (inl e) s []) \/
  (exists ql,
      accepted_qList q = Some ql /\
      first_failing polOrd nStep nMin (effective_nMax s nMax) (tsLen_of s) = None /\
      in_c_int (tsLen_of s) && in_c_int nStep = true /\
      computeFlucVec nMin q nMax polOrd nStep revSeg s =
      if enough_memory can_allocate
           (length (np_arange nMin (c_int_add (effective_nMax s nMax) 1) nStep))
           (length ql) (tsLen_of s)
      then Outcome (inr (np_arange nMin (c_int_add (effective_nMax s nMax) 1) nStep,
                         fluc_matrix revSeg (tsVec s)
                           (np_arange nMin (c_int_add (effective_nMax s nMax) 1) nStep) ql
                           (tsLen_of s) polOrd))
                   (mkMFDFA
                      (Some (np_arange nMin (c_int_add (effective_nMax s nMax) 1) nStep))
                      (tsVec s)
                      (Some (fluc_matrix revSeg (tsVec s)
                               (np_arange nMin (c_int_add (effective_nMax s nMax) 1) nStep)
                               ql (tsLen_of s) polOrd))
                      (listH s) (Some ql) nStep true) []
      else Outcome (inl MemoryError) (set_nStep nStep (set_qList ql s)) []).
Proof.
  destruct (first_failing polOrd nStep nMin (effective_nMax s nMax) (tsLen_of s))
    as [c |] eqn:Hc.
  - left. exists (check_error polOrd c).
    split; [destruct c; discriminate |].
    exact (computeFlucVec_first_failing _ _ _ _ _ _ _ _ _ _ c Hc).
  - rewrite (computeFlucVec_valid _ _ _ _ _ _ _ _ _ _ Hc). cbn zeta.
    destruct (accepted_qList q) as [ql |];
      [| left; eexists; split; [| reflexivity]; discriminate].
    destruct (in_c_int (tsLen_of s) && in_c_int nStep) eqn:Hint;
      [| left; eexists; split; [| reflexivity]; discriminate].
    right. exists ql. repeat split; reflexivity.
Qed.

(** The state a call leaves when it returns. *)
Lemma computeFlucVec_stored (nMin : Z) (ql : list float) (nMax' polOrd nStep : Z)
      (revSeg : bool) (s : MFDFA) :
  first_failing polOrd nStep nMin nMax' (tsLen_of s) = None ->
  in_c_int (tsLen_of s) = true ->
  let s' := mkMFDFA (Some (np_arange nMin (c_int_add nMax' 1) nStep)) (tsVec s)
                    (Some (fluc_matrix revSeg (tsVec s)
                             (np_arange nMin (c_int_add nMax' 1) nStep) ql
                             (tsLen_of s) polOrd))
                    (listH s) (Some ql) nStep true in
  (nMax' < INT_MAX /\
   c_int_add nMax' 1 = nMax' + 1 /\
   computed s' nMin nMax' ql
            (fluc_matrix revSeg (tsVec s) (np_arange nMin (nMax' + 1) nStep) ql
                         (tsLen_of s) polOrd)) \/
  (nMax' = INT_MAX /\ computed_empty s' ql).
Proof.
  intros Hv HN. cbn zeta. apply first_failing_none in Hv.
  unfold in_c_int in HN. apply andb_true_iff in HN. destruct HN as [_ HN].
  apply Z.leb_le in HN.
  destruct (Z.eq_dec nMax' INT_MAX) as [-> | Hne].
  - right. split; [reflexivity |].
    rewrite scale_set_wraps by (unfold INT_MIN; lia).
    constructor; simpl; try reflexivity; unfold tsLen_of, INT_MAX in *; simpl; lia.
  - left. split; [lia |].
    assert (Hc : c_int_add nMax' 1 = nMax' + 1)
      by (apply c_int_add_fits; unfold INT_MIN; lia).
    split; [exact Hc |]. rewrite Hc.
    destruct (fluc_matrix_shape flucMFDFAForwCompute flucMFDFAForwBackwCompute revSeg
                (tsVec s) (np_arange nMin (nMax' + 1) nStep) ql
                (tsLen_of s) polOrd) as [Hrows Hcols].
    constructor; simpl; try reflexivity; try assumption; lia.
Qed.

Lemma fitFlucVec_not_computed (nStart nEnd : Z) (base : float) (verbose : bool) (s : MFDFA) :
  isComputed s = false ->
  fitFlucVec nStart nEnd base verbose s =
  if in_c_int nStart && in_c_int nEnd
  then Outcome (inr None) s [msg_nothing_to_fit]
  else Outcome (inl OverflowError) s [].
Proof.
  intros Hflag. rewrite fitFlucVec_run. open_fitFlucVec_body.
  now rewrite bind_get_run, Hflag.
Qed.

(** With an empty scale set every fit ends in an exception. *)
Lemma fitFlucVec_no_scale (nStart nEnd : Z) (s : MFDFA) :
  isComputed s = true -> n s = Some [] ->
  exists e, forall base verbose,
    fitFlucVec nStart nEnd base verbose s = Outcome (inl e) s [].
Proof.
  intros Hflag Hn.
  assert (Hfirst : forall B (k : Z -> M B), bind n_first k s = Outcome (inl IndexError) s []).
  { intros B k. unfold n_first, self_n. rewrite !bind_assoc_run, bind_get_run, Hn.
    unfold need. rewrite bind_ret_run. reflexivity. }
  assert (Hlast : forall B (k : Z -> M B), bind n_last k s = Outcome (inl IndexError) s []).
  { intros B k. unfold n_last, self_n. rewrite !bind_assoc_run, bind_get_run, Hn.
    unfold need. rewrite bind_ret_run. reflexivity. }
  destruct (in_c_int nStart && in_c_int nEnd) eqn:Hint.
  2:{ exists OverflowError. intros base verbose. now rewrite fitFlucVec_run, Hint. }
  destruct (nStart =? -999) eqn:H1.
  { exists IndexError. intros base verbose. rewrite fitFlucVec_run, Hint.
    open_fitFlucVec_body. now rewrite bind_get_run, Hflag, H1, Hfirst. }
  destruct (nEnd =? -999) eqn:H2.
  { exists IndexError. intros base verbose. rewrite fitFlucVec_run, Hint.
    open_fitFlucVec_body. now rewrite bind_get_run, Hflag, H1, bind_ret_run, H2, Hlast. }
  destruct (nStart >? nEnd) eqn:H3.
  { exists (ValueError msg_nEnd_nStart). intros base verbose. rewrite fitFlucVec_run, Hint.
    open_fitFlucVec_body.
    now rewrite bind_get_run, Hflag, H1, bind_ret_run, H2, bind_ret_run, H3,
      bind_when_raise_run. }
  exists IndexError. intros base verbose. rewrite fitFlucVec_run, Hint.
  open_fitFlucVec_body.
  now rewrite bind_get_run, Hflag, H1, bind_ret_run, H2, bind_ret_run, H3,
    bind_when_false_run, Hfirst.
Qed.

(** What holds in every state of a session. *)
Lemma reachable_invariant (s : MFDFA) : reachable s -> session_invariant s.
Proof.
  induction 1 as [ts | s nMin q nMax polOrd nStep revSeg _ IH Hmem
                  | s nStart nEnd logBase verbose _ IH | s _ IH | s _ IH].
  - unfold MFDFA_new. rewrite MFDFA_call_run. unfold session_invariant. simpl.
    split; [| repeat split].
    apply Forall_forall. intros x Hx. apply filter_In in Hx.
    destruct Hx as [_ Hx]. now apply negb_true_iff in Hx.
  - destruct (computeFlucVec_cases nMin q nMax polOrd nStep revSeg s)
      as [(e & _ & He) | (ql & _ & Hv & Hint & He)]; rewrite He in *; [exact IH |].
    destruct (enough_memory _ _ _ _); [| now elim Hmem].
    cbn [final]. destruct IH as [Hnan _]. split; [exact Hnan |].
    cbn [isComputed].
    apply andb_true_iff in Hint. destruct Hint as [HN _].
    destruct (computeFlucVec_stored nMin ql (effective_nMax s nMax) polOrd nStep revSeg s
                Hv HN) as [(Hlt & Hw & Hc) | (_ & Hc)].
    + left. rewrite Hw in *. do 4 eexists. split; [exact Hc |].
      apply first_failing_none in Hv. unfold tsLen_of in *. cbn [tsVec]. lia.
    + right. eexists. exact Hc.
  - pose proof (fitFlucVec_keeps np_log np_polyfit1 format_2f nStart nEnd logBase verbose s)
      as Hk.
    pose proof Hk as (Hn & Hts & HF & Hq & _ & Hf).
    destruct IH as [Hnan IH]. split; [now rewrite Hts |]. rewrite Hf.
    destruct (isComputed s) eqn:Hflag.
    + destruct IH as [(nMin & nMax & qs & Fm & Hc & Hb) | (qs & Hc)].
      * left. exists nMin, nMax, qs, Fm. split.
        -- eapply computed_same_but_listH; eassumption.
        -- unfold tsLen_of in *. now rewrite Hts.
      * right. exists qs. eapply computed_empty_same_but_listH; eassumption.
    + rewrite Hn, HF, Hq.
      rewrite (fitFlucVec_not_computed _ _ _ _ _ Hflag).
      destruct (in_c_int nStart && in_c_int nEnd); exact IH.
  - now rewrite computeMassExponents_final.
  - now rewrite computeMultifractalSpectrum_final.
Qed.


(** So is every state in which a fit returns. *)
Lemma fitted_computed (s : MFDFA) (nStart nEnd : Z) (base : float) (verbose : bool)
      (r : option (list float * list float)) :
  reachable s -> isComputed s = true ->
  result (fitFlucVec nStart nEnd base verbose s) = inr r ->
  exists nMin nMax qs Fm, computed s nMin nMax qs Fm.
Proof.
  intros Hreach Hflag Hfit.
  destruct (reachable_invariant s Hreach) as [_ Hinv]. rewrite Hflag in Hinv.
  destruct Hinv as [(nMin & nMax & qs & Fm & Hc & _) | (qs & Hc)]; [eauto |].
  destruct (fitFlucVec_no_scale nStart nEnd s Hflag (empty_n _ _ Hc)) as [e He].
  rewrite He in Hfit. discriminate.
Qed.

(** And every state with a scale. *)
Lemma scaled_computed (s : MFDFA) (ns : list Z) :
  reachable s -> isComputed s = true -> n s = Some ns -> ns <> [] ->
  exists nMin nMax qs Fm, computed s nMin nMax qs Fm.
Proof.
  intros Hreach Hflag Hn Hne.
  destruct (reachable_invariant s Hreach) as [_ Hinv]. rewrite Hflag in Hinv.
  destruct Hinv as [(nMin & nMax & qs & Fm & Hc & _) | (qs & Hc)]; [eauto |].
  pose proof (empty_n _ _ Hc). congruence.
Qed.

End Sessions.

(** ** Elementwise operations *)

Lemma np_mul_attr_arrays (x y : list float) :
  np_mul_attr (Some x) (Some y) = lift (np_binop PrimFloat.mul x y).
Proof. destruct x; reflexivity. Qed.

Lemma map_zip_with {A B C D} (g : C -> D) (f : A -> B -> C) (l1 : list A) (l2 : list B) :
  map g (zip_with f l1 l2) = zip_with (fun a b => g (f a b)) l1 l2.
Proof.
  revert l2. induction l1 as [| a l1 IH]; intros [| b l2]; simpl; try reflexivity.
  now rewrite IH.
Qed.

Lemma length_zip_with {A B C} (f : A -> B -> C) (l1 : list A) (l2 : list B) :
  length (zip_with f l1 l2) = Nat.min (length l1) (length l2).
Proof.
  revert l2. induction l1 as [| a l1 IH]; intros [| b l2]; simpl; try reflexivity.
  now rewrite IH.
Qed.

Lemma nth_error_zip_with {A B C} (f : A -> B -> C) (l1 : list A) (l2 : list B)
      (i : nat) (a : A) (b : B) :
  nth_error l1 i = Some a -> nth_error l2 i = Some b ->
  nth_error (zip_with f l1 l2) i = Some (f a b).
Proof.
  revert l2 i. induction l1 as [| x l1 IH]; intros [| y l2] [| i] H1 H2;
    simpl in *; try discriminate.
  - congruence.
  - now apply IH.
Qed.

(** ** Claims on [fitFlucVec], the mass exponents and the spectrum *)

Section FitClaims.

Variable flucMFDFAForwCompute : list float -> Z -> float -> Z -> Z -> float.
Variable flucMFDFAForwBackwCompute : list float -> Z -> float -> Z -> Z -> float.
Variable np_log : float -> float.
Variable np_polyfit1 : list float -> list float -> exn + (float * float).
Variable format_2f : float -> string.
Variable can_allocate : Z -> bool.

#[local] Abbreviation computeFlucVec :=
  (computeFlucVec flucMFDFAForwCompute flucMFDFAForwBackwCompute can_allocate).
#[local] Abbreviation computeFlucVec_call :=
  (computeFlucVec_call flucMFDFAForwCompute flucMFDFAForwBackwCompute can_allocate).
#[local] Abbreviation fitFlucVec := (fitFlucVec np_log np_polyfit1 format_2f).
#[local] Abbreviation fitFlucVec_body := (fitFlucVec_body np_log np_polyfit1 format_2f).
#[local] Abbreviation fitFlucVec_call := (fitFlucVec_call np_log np_polyfit1 format_2f).

Lemma n_first_hd {B} (k : Z -> M B) (s : MFDFA) (ns : list Z) :
  n s = Some ns -> ns <> [] -> bind n_first k s = k (hd 0 ns) s.
Proof.
  intros Hn Hne. unfold n_first, self_n.
  rewrite !bind_assoc_run, bind_get_run, Hn. unfold need. rewrite bind_ret_run.
  unfold item. destruct ns as [| x l]; [congruence |]. simpl. now run.
Qed.

Lemma n_last_last {B} (k : Z -> M B) (s : MFDFA) (ns : list Z) :
  n s = Some ns -> ns <> [] -> bind n_last k s = k (last ns 0) s.
Proof.
  intros Hn Hne. unfold n_last, self_n.
  rewrite !bind_assoc_run, bind_get_run, Hn. unfold need. rewrite bind_ret_run.
  pose proof (last_nth_error ns 0 Hne) as Hl.
  unfold item_last, item. destruct ns as [| x l]; [congruence |].
  rewrite Hl. now run.
Qed.

(** C10.  The value -999 is read as "argument left out".  For
    [computeFlucVec], passing nMax = -999 is the call without nMax, and both
    are the call with nMax = floor(N / 4).  For [fitFlucVec], passing
    nStart = -999 (nEnd = -999) is the call without it, and on an object that
    holds a scale set both are the call with the first (last) scale, the
    scales being C ints. *)
Theorem C10_sentinel_is_default :
  (forall (s : MFDFA) (nMin : Z) (q : pyval) (polOrd nStep : option Z) (revSeg : option bool),
      computeFlucVec_call nMin q (Some (-999)) polOrd nStep revSeg s
      = computeFlucVec_call nMin q None polOrd nStep revSeg s /\
      computeFlucVec_call nMin q (Some (-999)) polOrd nStep revSeg s
      = computeFlucVec_call nMin q (Some (tsLen_of s / 4)) polOrd nStep revSeg s) /\
  (forall (s : MFDFA) (nStart nEnd : option Z) (base : option float) (verbose : option bool),
      fitFlucVec_call (Some (-999)) nEnd base verbose s
      = fitFlucVec_call None nEnd base verbose s /\
      fitFlucVec_call nStart (Some (-999)) base verbose s
      = fitFlucVec_call nStart None base verbose s /\
      forall ns, n s = Some ns -> ns <> [] ->
                 (in_c_int (hd 0 ns) = true ->
                  fitFlucVec_call (Some (-999)) nEnd base verbose s
                  = fitFlucVec_call (Some (hd 0 ns)) nEnd base verbose s) /\
                 (in_c_int (last ns 0) = true ->
                  fitFlucVec_call nStart (Some (-999)) base verbose s
                  = fitFlucVec_call nStart (Some (last ns 0)) base verbose s)).
Proof.
  split.
  - intros s nMin q polOrd nStep revSeg. split; [reflexivity |].
    open_computeFlucVec_call. simpl or_default.
    rewrite !computeFlucVec_run. cbn zeta.
    assert (He : effective_nMax s (tsLen_of s / 4) = effective_nMax s (-999)).
    { unfold effective_nMax. simpl (-999 =? -999).
      destruct (Z.eqb_spec (tsLen_of s / 4) (-999)) as [He | _]; [| reflexivity].
      exfalso. unfold tsLen_of in He.
      pose proof (Z.div_pos (Z.of_nat (length (tsVec s))) 4 ltac:(lia) ltac:(lia)). lia. }
    rewrite He. reflexivity.
  - intros s nStart nEnd base verbose.
    split; [reflexivity |]. split; [reflexivity |].
    intros ns Hn Hne. open_fitFlucVec_call. simpl or_default.
    split.
    + intros Hhd. rewrite !fitFlucVec_run, Hhd.
      change (in_c_int (-999)) with true.
      destruct (true && in_c_int (or_default nEnd_default nEnd)); [| reflexivity].
      open_fitFlucVec_body. rewrite !bind_get_run.
      destruct (isComputed s); [| reflexivity].
      simpl (-999 =? -999). rewrite (n_first_hd _ s ns Hn Hne).
      destruct (hd 0 ns =? -999); [now rewrite (n_first_hd _ s ns Hn Hne) |].
      now rewrite bind_ret_run.
    + intros Hlast. rewrite !fitFlucVec_run, Hlast.
      change (in_c_int (-999)) with true.
      destruct (in_c_int (or_default nStart_default nStart) && true); [| reflexivity].
      open_fitFlucVec_body. rewrite !bind_get_run.
      destruct (isComputed s); [| reflexivity].
      destruct (or_default nStart_default nStart =? -999).
      * rewrite !(n_first_hd _ s ns Hn Hne).
        simpl (-999 =? -999). rewrite (n_last_last _ s ns Hn Hne).
        destruct (last ns 0 =? -999); [now rewrite (n_last_last _ s ns Hn Hne) |].
        now rewrite bind_ret_run.
      * rewrite !bind_ret_run.
        simpl (-999 =? -999). rewrite (n_last_last _ s ns Hn Hne).
        destruct (last ns 0 =? -999); [now rewrite (n_last_last _ s ns Hn Hne) |].
        now rewrite bind_ret_run.
Qed.


(** [computeMassExponents] after a successful fit on a computed state. *)
Lemma computeMassExponents_after_fit (s : MFDFA) (nMin nMax : Z) (qs : list float)
        (Fm : list (list float)) (Hc : computed s nMin nMax qs Fm)
        (nStart nEnd : Z) (base : float) (verbose : bool) (H I : list float)
        (Hfit : result (fitFlucVec nStart nEnd base verbose s) = inr (Some (H, I))) :
  let s' := final (fitFlucVec nStart nEnd base verbose s) in
  qList s' = Some qs /\ listH s' = Some H /\ length H = length qs /\
  computeMassExponents s' = Outcome (inr (Some (zip_with tau_of H qs))) s' [] /\
  length (zip_with tau_of H qs) = length qs /\
  forall i h q, nth_error H i = Some h -> nth_error qs i = Some q ->
                nth_error (zip_with tau_of H qs) i
                = Some (PrimFloat.sub (PrimFloat.mul h q) 1%float).
Proof.
  cbn zeta.
  pose proof (computed_rows _ _ _ _ _ Hc) as Hrows.
  destruct (valid_limits (np_arange nMin (nMax + 1) (nStep s))
              (effective_nStart (np_arange nMin (nMax + 1) (nStep s)) nStart)
              (effective_nEnd (np_arange nMin (nMax + 1) (nStep s)) nEnd)) eqn:Hv.
  2:{ destruct (fitFlucVec_invalid np_log np_polyfit1 format_2f s nMin nMax qs Fm Hc
                  nStart nEnd base verbose Hv) as [e He].
      rewrite He in Hfit. discriminate. }
  pose proof (fitFlucVec_fits np_log np_polyfit1 format_2f s nMin nMax qs Fm Hc
                nStart nEnd base verbose Hv) as Hrun.
  cbn zeta in Hrun.
  destruct (map_exn _ Fm) as [e | ps] eqn:Hps; [congruence |].
  destruct Hrun as [Hr Hf]. rewrite Hr in Hfit.
  assert (HH : H = map fst ps) by congruence.
  rewrite Hf, <- HH.
  assert (Hlen : length H = length qs).
  { rewrite HH, length_map, (map_exn_length _ _ _ Hps). exact Hrows. }
  split; [exact (computed_qList _ _ _ _ _ Hc) |].
  split; [reflexivity |].
  split; [exact Hlen |].
  split.
  { unfold computeMassExponents. rewrite bind_get_run.
    change (isComputed (set_listH H s)) with (isComputed s).
    rewrite (computed_flag _ _ _ _ _ Hc).
    change (listH (set_listH H s)) with (Some H).
    change (qList (set_listH H s)) with (qList s).
    rewrite (computed_qList _ _ _ _ _ Hc).
    rewrite np_mul_attr_arrays. unfold np_binop. rewrite Hlen, Nat.eqb_refl.
    rewrite bind_lift_inr_run. unfold ret.
    now rewrite map_zip_with. }
  split.
  { rewrite length_zip_with. lia. }
  intros i h q Hh Hq. exact (nth_error_zip_with tau_of H qs i h q Hh Hq).
Qed.

Lemma computeMassExponents_fitted (s : MFDFA) (H qs : list float) :
  isComputed s = true -> listH s = Some H -> qList s = Some qs -> length H = length qs ->
  computeMassExponents s = Outcome (inr (Some (zip_with tau_of H qs))) s [].
Proof.
  intros Hflag HH Hq Hlen. unfold computeMassExponents.
  rewrite bind_get_run, Hflag, HH, Hq, np_mul_attr_arrays.
  unfold np_binop. rewrite Hlen, Nat.eqb_refl, bind_lift_inr_run. unfold ret.
  now rewrite map_zip_with.
Qed.

Lemma py_slice_but_last {A} (l : list A) : py_slice l 0 (-1) = firstn (length l - 1) l.
Proof.
  unfold py_slice, clamp_index.
  change (0 <? 0) with false. change (-1 <? 0) with true. cbn iota.
  rewrite Z.min_l by lia. change (Z.to_nat 0) with 0%nat. cbn [skipn].
  f_equal. lia.
Qed.

Lemma nth_error_tl {A} (l : list A) (i : nat) : nth_error (tl l) i = nth_error l (S i).
Proof. destruct l; [destruct i |]; reflexivity. Qed.

Lemma length_np_diff (l : list float) : length (np_diff l) = (length l - 1)%nat.
Proof.
  unfold np_diff. rewrite length_zip_with.
  destruct l as [| x l]; [reflexivity |]. cbn [tl length]. lia.
Qed.

(** C1, as the code has it.  The three methods are gated by [isComputed]
    alone.  Before any successful [computeFlucVec] each of them prints
    'Nothing to fit, ...', returns None without raising, and leaves the
    object unchanged ([fitFlucVec] on limits that fit a C int, which are
    converted before the flag is read; a limit that does not fit raises
    [OverflowError]).  After a compute and before any fit ([listH] still
    None), [computeMassExponents] and [computeMultifractalSpectrum] end in an
    exception and leave the object unchanged. *)
Theorem C1_gated_by_isComputed (s : MFDFA) (nStart nEnd : Z) (base : float) (verbose : bool) :
  (isComputed s = false ->
   fitFlucVec nStart nEnd base verbose s
   = (if in_c_int nStart && in_c_int nEnd
      then Outcome (inr None) s [msg_nothing_to_fit]
      else Outcome (inl OverflowError) s []) /\
   computeMassExponents s = Outcome (inr None) s [msg_nothing_to_fit] /\
   computeMultifractalSpectrum s = Outcome (inr None) s [msg_nothing_to_fit]) /\
  (isComputed s = true -> listH s = None -> forall qs, qList s = Some qs ->
   raises (computeMassExponents s) /\ final (computeMassExponents s) = s /\
   raises (computeMultifractalSpectrum s) /\ final (computeMultifractalSpectrum s) = s).
Proof.
  split.
  - intros Hflag. repeat split.
    + now apply fitFlucVec_not_computed.
    + unfold computeMassExponents. now rewrite bind_get_run, Hflag.
    + unfold computeMultifractalSpectrum. now rewrite bind_get_run, Hflag.
  - intros Hflag HH qs Hq.
    assert (Hmass : raises (computeMassExponents s)).
    { unfold computeMassExponents, raises. rewrite bind_get_run, Hflag, HH, Hq.
      destruct qs; eexists; reflexivity. }
    split; [exact Hmass |].
    split; [apply computeMassExponents_final |].
    split; [| apply computeMultifractalSpectrum_final].
    unfold computeMultifractalSpectrum, raises.
    rewrite bind_get_run, Hflag, Hq. unfold need at 1. rewrite bind_ret_run.
    destruct (1 <? Z.of_nat (length qs)); [| eexists; reflexivity].
    destruct Hmass as [e He]. exists e. now apply bind_result_inl.
Qed.

(** C3, as the code has it.  On a computed state with the q-orders [qs]:
    with fewer than two q-orders [computeMultifractalSpectrum] raises
    [ValueError]; with two or more, and slopes [H] stored for them, it
    returns two arrays of [length qs - 1] entries with
    alpha[i] = (tau[i+1] - tau[i]) / (qs[1] - qs[0]) -- the spacing of the
    first two q-orders, for every i -- and f[i] = qs[i] * alpha[i] - tau[i],
    where tau[i] = H[i] * qs[i] - 1.  Where qs[i+1] - qs[i] equals
    qs[1] - qs[0], alpha[i] is the difference quotient over the consecutive
    pair.  The object is unchanged. *)
Theorem C3_spectrum_first_spacing (s : MFDFA) (qs : list float)
        (Hflag : isComputed s = true) (Hq : qList s = Some qs) :
  ((length qs < 2)%nat ->
   computeMultifractalSpectrum s = Outcome (inl (ValueError msg_q_moments)) s []) /\
  ((2 <= length qs)%nat ->
   forall H, listH s = Some H -> length H = length qs ->
   exists alpha mf,
     computeMultifractalSpectrum s = Outcome (inr (Some (alpha, mf))) s [] /\
     length alpha = (length qs - 1)%nat /\
     length mf = (length qs - 1)%nat /\
     forall i, (i < length qs - 1)%nat ->
       let tau := fun k => tau_of (nth k H 0%float) (nth k qs 0%float) in
       let alpha_i := PrimFloat.div (PrimFloat.sub (tau (S i)) (tau i))
                                    (PrimFloat.sub (nth 1 qs 0%float) (nth 0 qs 0%float)) in
       nth_error alpha i = Some alpha_i /\
       nth_error mf i
       = Some (PrimFloat.sub (PrimFloat.mul (nth i qs 0%float) alpha_i) (tau i)) /\
       (PrimFloat.sub (nth (S i) qs 0%float) (nth i qs 0%float)
        = PrimFloat.sub (nth 1 qs 0%float) (nth 0 qs 0%float) ->
        nth_error alpha i
        = Some (PrimFloat.div (PrimFloat.sub (tau (S i)) (tau i))
                              (PrimFloat.sub (nth (S i) qs 0%float) (nth i qs 0%float))))).
Proof.
  split.
  - intros Hlen. unfold computeMultifractalSpectrum.
    rewrite bind_get_run, Hflag, Hq. unfold need at 1. rewrite bind_ret_run.
    destruct (Z.ltb_spec 1 (Z.of_nat (length qs))); [lia | reflexivity].
  - intros Hlen H HH HlenH.
    set (tau := zip_with tau_of H qs).
    set (q1 := nth 1 qs 0%float). set (q0 := nth 0 qs 0%float).
    set (alpha := map (fun d => PrimFloat.div d (PrimFloat.sub q1 q0)) (np_diff tau)).
    assert (Ltau : length tau = length qs).
    { unfold tau. rewrite length_zip_with. lia. }
    assert (Lalpha : length alpha = (length qs - 1)%nat).
    { unfold alpha. now rewrite length_map, length_np_diff, Ltau. }
    set (qa := zip_with PrimFloat.mul (firstn (length qs - 1) qs) alpha).
    set (mf := zip_with PrimFloat.sub qa (firstn (length tau - 1) tau)).
    assert (Lqa : length qa = (length qs - 1)%nat).
    { unfold qa. rewrite length_zip_with, length_firstn. lia. }
    exists alpha, mf.
    split.
    { unfold computeMultifractalSpectrum.
      rewrite bind_get_run, Hflag, Hq. unfold need at 1. rewrite bind_ret_run.
      destruct (Z.ltb_spec 1 (Z.of_nat (length qs))); [| lia].
      rewrite (bind_run_quiet _ _ _ _ _ (computeMassExponents_fitted s H qs Hflag HH Hq HlenH)).
      fold tau.
      unfold need at 1. rewrite bind_ret_run, bind_get_run, Hq.
      unfold need at 1. rewrite bind_ret_run.
      unfold item.
      rewrite (nth_error_nth' qs 0%float (n := 1)) by lia.
      rewrite bind_ret_run.
      rewrite (nth_error_nth' qs 0%float (n := 0)) by lia.
      rewrite bind_ret_run. cbn zeta. fold q1 q0 alpha.
      rewrite !py_slice_but_last.
      unfold np_binop at 1.
      rewrite length_firstn, Lalpha, Nat.min_l, Nat.eqb_refl by lia.
      rewrite bind_lift_inr_run. fold qa.
      unfold np_binop.
      rewrite Lqa, length_firstn, Ltau, Nat.min_l, Nat.eqb_refl by lia.
      rewrite bind_lift_inr_run. rewrite <- Ltau. reflexivity. }
    split; [exact Lalpha |].
    split.
    { unfold mf. rewrite length_zip_with, Lqa, length_firstn, Ltau. lia. }
    intros i Hi. cbn zeta.
    assert (Htau : forall k, (k < length qs)%nat ->
                   nth_error tau k = Some (tau_of (nth k H 0%float) (nth k qs 0%float))).
    { intros k Hk. unfold tau. apply nth_error_zip_with; apply nth_error_nth'; lia. }
    assert (Halpha : nth_error alpha i
                     = Some (PrimFloat.div
                               (PrimFloat.sub (tau_of (nth (S i) H 0%float) (nth (S i) qs 0%float))
                                              (tau_of (nth i H 0%float) (nth i qs 0%float)))
                               (PrimFloat.sub q1 q0))).
    { unfold alpha. rewrite nth_error_map. unfold np_diff.
      rewrite (nth_error_zip_with _ tau (tl tau) i _ _ (Htau i ltac:(lia))
                 (eq_trans (nth_error_tl tau i) (Htau (S i) ltac:(lia)))).
      reflexivity. }
    split; [exact Halpha |].
    split; [| intros Heven; rewrite Heven; exact Halpha].
    unfold mf. apply nth_error_zip_with.
    + unfold qa. apply nth_error_zip_with; [| exact Halpha].
      rewrite nth_error_firstn.
      destruct (Nat.ltb_spec i (length qs - 1)); [| lia].
      apply nth_error_nth'. lia.
    + rewrite nth_error_firstn, Ltau.
      destruct (Nat.ltb_spec i (length qs - 1)); [| lia].
      apply Htau. lia.
Qed.

#[local] Abbreviation reachable :=
  (reachable flucMFDFAForwCompute flucMFDFAForwBackwCompute np_log np_polyfit1 format_2f
             can_allocate).


(** C2.  In every state of a session, after a successful fit,
    [computeMassExponents] returns, for every q-order, the slope the fit
    stored times q minus 1, and changes nothing. *)
Theorem C2_mass_exponents_from_fit (s : MFDFA) (Hreach : reachable s)
        (nStart nEnd : Z) (base : float) (verbose : bool) (H I : list float)
        (Hfit : result (fitFlucVec nStart nEnd base verbose s) = inr (Some (H, I))) :
  exists qs,
    qList (final (fitFlucVec nStart nEnd base verbose s)) = Some qs /\
    listH (final (fitFlucVec nStart nEnd base verbose s)) = Some H /\
    length H = length qs /\
    computeMassExponents (final (fitFlucVec nStart nEnd base verbose s))
    = Outcome (inr (Some (zip_with tau_of H qs)))
              (final (fitFlucVec nStart nEnd base verbose s)) [] /\
    length (zip_with tau_of H qs) = length qs /\
    forall i h q, nth_error H i = Some h -> nth_error qs i = Some q ->
                  nth_error (zip_with tau_of H qs) i
                  = Some (PrimFloat.sub (PrimFloat.mul h q) 1%float).
Proof.
  assert (Hflag : isComputed s = true).
  { destruct (isComputed s) eqn:Hf; [reflexivity |]. exfalso. revert Hfit.
    rewrite (fitFlucVec_not_computed _ _ _ _ _ _ _ _ Hf).
    destruct (in_c_int nStart && in_c_int nEnd); discriminate. }
  destruct (fitted_computed _ _ _ _ _ _ s nStart nEnd base verbose _ Hreach Hflag Hfit)
    as (nMin & nMax & qs & Fm & Hc).
  exists qs.
  exact (computeMassExponents_after_fit s nMin nMax qs Fm Hc nStart nEnd base verbose H I Hfit).
Qed.

End FitClaims.

(** ** The claims on concrete sessions *)

Lemma demo_session_computed :
  computed demo_session 4 8 [1%float; 2%float; 4%float]
           (fluc_matrix demo_fluc demo_fluc false (ramp 32) (np_arange 4 (8 + 1) 1)
                        [1%float; 2%float; 4%float] 32 1).
Proof.
  constructor; try (vm_compute; reflexivity); try (vm_compute; intuition congruence).
  vm_compute. repeat constructor.
Qed.

(** C1 fails on the code: on a session that has computed nothing, the three
    methods return None instead of raising. *)
Lemma C1_uncomputed_calls_return_none :
  result (fitFlucVec demo_log demo_polyfit1 demo_format_2f (-999) (-999)
                     logBase_default false (MFDFA_new (ramp 32))) = inr None /\
  result (computeMassExponents (MFDFA_new (ramp 32))) = inr None /\
  result (computeMultifractalSpectrum (MFDFA_new (ramp 32))) = inr None.
Proof. repeat split; vm_compute; reflexivity. Qed.

Lemma C1_gated_witness :
  computeMassExponents (MFDFA_new (ramp 32))
  = Outcome (inr None) (MFDFA_new (ramp 32)) [msg_nothing_to_fit] /\
  raises (computeMassExponents demo_session).
Proof.
  split.
  - apply (proj1 (C1_gated_by_isComputed demo_log demo_polyfit1 demo_format_2f
                    (MFDFA_new (ramp 32)) (-999) (-999) logBase_default false)).
    vm_compute. reflexivity.
  - apply (proj2 (C1_gated_by_isComputed demo_log demo_polyfit1 demo_format_2f
                    demo_session (-999) (-999) logBase_default false))
      with (qs := [1%float; 2%float; 4%float]); vm_compute; reflexivity.
Defined.

Lemma demo_session_is_reachable :
  reachable demo_fluc demo_fluc demo_log demo_polyfit1 demo_format_2f demo_alloc
            demo_session.
Proof.
  unfold demo_session. apply reach_computeFlucVec; [apply reach_new |].
  intros Hm. vm_compute in Hm. discriminate.
Qed.

Lemma demo_fitted_is_reachable :
  reachable demo_fluc demo_fluc demo_log demo_polyfit1 demo_format_2f demo_alloc
            demo_fitted.
Proof. unfold demo_fitted. apply reach_fitFlucVec, demo_session_is_reachable. Qed.

Lemma C2_mass_exponents_witness :
  computeMassExponents demo_fitted
  = Outcome (inr (Some [0%float; 1%float; 3%float])) demo_fitted [].
Proof.
  destruct (C2_mass_exponents_from_fit demo_fluc demo_fluc demo_log demo_polyfit1
              demo_format_2f demo_alloc demo_session demo_session_is_reachable (-999) (-999)
              logBase_default false [1%float; 1%float; 1%float]
              [0%float; 0%float; 0%float])
    as (qs & Hq & _ & _ & Hrun & _); [vm_compute; reflexivity |].
  vm_compute in Hq. injection Hq as <-. exact Hrun.
Defined.

(** [spectrum_example] is the state of [demo_session] after a fit in which
    [np.polyfit] returns the slope 0.5 and the intercept 0 for every row. *)
Lemma spectrum_example_reachable :
  spectrum_example
  = final (fitFlucVec demo_log (fun _ _ => inr (0.5%float, 0%float)) demo_format_2f
                      (-999) (-999) logBase_default false demo_session) /\
  reachable demo_fluc demo_fluc demo_log (fun _ _ => inr (0.5%float, 0%float))
            demo_format_2f demo_alloc spectrum_example.
Proof.
  assert (He : spectrum_example
               = final (fitFlucVec demo_log (fun _ _ => inr (0.5%float, 0%float))
                                   demo_format_2f (-999) (-999) logBase_default false
                                   demo_session))
    by (vm_compute; reflexivity).
  split; [exact He |].
  rewrite He. unfold demo_session.
  apply reach_fitFlucVec, reach_computeFlucVec; [apply reach_new |].
  intros Hm. vm_compute in Hm. discriminate.
Qed.

(** C3 fails on the code when the q-orders are not evenly spaced: with
    q = 1, 2, 4 and H = 0.5 throughout, tau = -0.5, 0, 1; the code divides
    both differences by q[1] - q[0] = 1 and returns alpha = 0.5, 1, where the
    spacing of the consecutive q-orders gives 0.5, 0.5. *)
Lemma C3_uneven_q_orders :
  computeMassExponents spectrum_example
  = Outcome (inr (Some [(-0.5)%float; 0%float; 1%float])) spectrum_example [] /\
  computeMultifractalSpectrum spectrum_example
  = Outcome (inr (Some ([0.5%float; 1%float], [1%float; 2%float]))) spectrum_example [] /\
  alpha_consecutive [1%float; 2%float; 4%float] [(-0.5)%float; 0%float; 1%float]
  = [0.5%float; 0.5%float] /\
  PrimFloat.eqb 1%float 0.5%float = false.
Proof. repeat split; vm_compute; reflexivity. Qed.

Lemma C3_spectrum_witness :
  computeMultifractalSpectrum demo_single_q
  = Outcome (inl (ValueError msg_q_moments)) demo_single_q [] /\
  exists alpha mf,
    computeMultifractalSpectrum demo_fitted = Outcome (inr (Some (alpha, mf))) demo_fitted [] /\
    length alpha = 2%nat /\ length mf = 2%nat.
Proof.
  split.
  - apply (C3_spectrum_first_spacing demo_single_q [2%float]);
      [vm_compute; reflexivity | vm_compute; reflexivity | simpl; lia].
  - destruct (C3_spectrum_first_spacing demo_fitted [1%float; 2%float; 4%float])
      as [_ Hsp]; [vm_compute; reflexivity | vm_compute; reflexivity |].
    destruct (Hsp ltac:(simpl; lia) [1%float; 1%float; 1%float])
      as (alpha & mf & Hrun & Ha & Hm & _);
      [vm_compute; reflexivity | reflexivity |].
    exists alpha, mf. split; [exact Hrun | split; [exact Ha | exact Hm]].
Defined.

(** C5 fails on the code: a series of NaNs only is accepted. *)
Lemma C5_all_nan_series_accepted :
  result (MFDFA_call [nan; nan; nan]) = inr tt /\
  tsVec (final (MFDFA_call [nan; nan; nan])) = [] /\
  result (MFDFA_call []) = inr tt.
Proof. repeat split; vm_compute; reflexivity. Qed.



Lemma C5_empty_series_witness :
  MFDFA_call [nan; nan] = Outcome (inr tt) (MFDFA_new [nan; nan]) [] /\
  tsVec (MFDFA_new [nan; nan]) = [].
Proof.
  pose proof (C5_empty_series_constructs demo_fluc demo_fluc demo_alloc [nan; nan]) as H.
  destruct H as (H1 & H2 & _).
  - repeat constructor.
  - split; assumption.
Defined.


(** * Further properties of the methods *)

(** ** [computeFlucVec]: what a call leaves behind *)

Ltac open_fluc_matrix := unfold fluc_matrix.

Section ComputeOutcomes.

Variable flucMFDFAForwCompute : list float -> Z -> float -> Z -> Z -> float.
Variable flucMFDFAForwBackwCompute : list float -> Z -> float -> Z -> Z -> float.
Variable can_allocate : Z -> bool.

#[local] Abbreviation computeFlucVec :=
  (computeFlucVec flucMFDFAForwCompute flucMFDFAForwBackwCompute can_allocate).
#[local] Abbreviation fluc_matrix :=
  (fluc_matrix flucMFDFAForwCompute flucMFDFAForwBackwCompute).
#[local] Abbreviation computeFlucVec_cases :=
  (computeFlucVec_cases flucMFDFAForwCompute flucMFDFAForwBackwCompute can_allocate).

(** X1.  [computeFlucVec] never prints.  A call that ends in an exception
    other than [MemoryError] (a failed check, the rejected [qList], an
    argument that does not fit a C int) leaves the object exactly as it was:
    an earlier computation and an earlier fit stay in place.  A call that
    runs out of memory does so after the q-orders and the step have been
    written: the object then holds the new [qList] and [nStep] beside the
    scales, the matrix, the slopes and the flag it had. *)
Theorem X1_computeFlucVec_failure (nMin : Z) (q : pyval)
        (nMax polOrd nStep : Z) (revSeg : bool) (s : MFDFA) (e : exn)
        (Hraise : result (computeFlucVec nMin q nMax polOrd nStep revSeg s) = inl e) :
  printed (computeFlucVec nMin q nMax polOrd nStep revSeg s) = [] /\
  (e <> MemoryError -> final (computeFlucVec nMin q nMax polOrd nStep revSeg s) = s) /\
  (e = MemoryError ->
   exists ql,
     accepted_qList q = Some ql /\
     final (computeFlucVec nMin q nMax polOrd nStep revSeg s)
     = set_nStep nStep (set_qList ql s)).
Proof.
  destruct (computeFlucVec_cases nMin q nMax polOrd nStep revSeg s)
    as [(e' & Hne & He) | (ql & Hq & _ & _ & He)]; rewrite He in *.
  - cbn [result] in Hraise. injection Hraise as <-.
    split; [reflexivity |]. split; [reflexivity | contradiction].
  - destruct (enough_memory _ _ _ _); [discriminate |].
    cbn [result] in Hraise. injection Hraise as <-.
    split; [reflexivity |]. split; [intros Hne; now elim Hne |].
    intros _. exists ql. split; [exact Hq | reflexivity].
Qed.

(** X2.  A successful [computeFlucVec] returns and stores the scales and a
    matrix with one row per q-order and one column per scale; entry (i, j)
    is the fluctuation routine -- the forward-backward one when [revSeg] is
    set, the forward one otherwise -- applied to the stored series, the j-th
    scale, the i-th q-order, the series length and the polynomial order.
    The call sets [isComputed], stores the q-orders and the step, and keeps
    the series and [listH]. *)
Theorem X2_fluctuation_matrix (nMin : Z) (q : pyval) (nMax polOrd nStep : Z)
        (revSeg : bool) (s : MFDFA) (vecn : list Z) (Fm : list (list float))
        (Hrun : result (computeFlucVec nMin q nMax polOrd nStep revSeg s) = inr (vecn, Fm)) :
  exists ql,
    accepted_qList q = Some ql /\
    final (computeFlucVec nMin q nMax polOrd nStep revSeg s)
    = mkMFDFA (Some vecn) (tsVec s) (Some Fm) (listH s) (Some ql) nStep true /\
    printed (computeFlucVec nMin q nMax polOrd nStep revSeg s) = [] /\
    length Fm = length ql /\
    Forall (fun row => length row = length vecn) Fm /\
    forall i j qv w,
      nth_error ql i = Some qv -> nth_error vecn j = Some w ->
      exists row,
        nth_error Fm i = Some row /\
        nth_error row j
        = Some (fluc_routine flucMFDFAForwCompute flucMFDFAForwBackwCompute revSeg
                             (tsVec s) w qv (tsLen_of s) polOrd).
Proof.
  destruct (computeFlucVec_cases nMin q nMax polOrd nStep revSeg s)
    as [(e & _ & He) | (ql & Hq & _ & _ & He)]; rewrite He in *; [discriminate |].
  destruct (enough_memory _ _ _ _); [| discriminate].
  cbn [result final printed] in *. injection Hrun as <- <-.
  exists ql. split; [exact Hq |]. split; [reflexivity |]. split; [reflexivity |].
  destruct (fluc_matrix_shape flucMFDFAForwCompute flucMFDFAForwBackwCompute revSeg
              (tsVec s) (np_arange nMin (c_int_add (effective_nMax s nMax) 1) nStep) ql
              (tsLen_of s) polOrd) as [Hrows Hcols].
  split; [exact Hrows |]. split; [exact Hcols |].
  intros i j qv w Hi Hj. open_fluc_matrix. unfold fluc_routine.
  eexists. split.
  - rewrite nth_error_map, Hi. reflexivity.
  - rewrite nth_error_map, Hj. reflexivity.
Qed.

(** X3.  The outcome of [computeFlucVec] depends on the stored series and on
    the arguments only, not on what the object computed or fitted before:
    on two objects with the same series the same call returns the same
    result (or raises the same exception), and when it succeeds the two
    objects agree afterwards on everything but [listH], which the call
    leaves as it found it. *)
Theorem X3_computeFlucVec_overwrites (nMin : Z) (q : pyval) (nMax polOrd nStep : Z)
        (revSeg : bool) (s s' : MFDFA) (Hseries : tsVec s = tsVec s') :
  result (computeFlucVec nMin q nMax polOrd nStep revSeg s)
  = result (computeFlucVec nMin q nMax polOrd nStep revSeg s') /\
  listH (final (computeFlucVec nMin q nMax polOrd nStep revSeg s)) = listH s /\
  (~ raises (computeFlucVec nMin q nMax polOrd nStep revSeg s) ->
   same_but_listH (final (computeFlucVec nMin q nMax polOrd nStep revSeg s))
                  (final (computeFlucVec nMin q nMax polOrd nStep revSeg s'))).
Proof.
  assert (HN : tsLen_of s = tsLen_of s') by (unfold tsLen_of; now rewrite Hseries).
  assert (HM : effective_nMax s nMax = effective_nMax s' nMax)
    by (unfold effective_nMax; now rewrite HN).
  rewrite !computeFlucVec_run. cbn zeta. rewrite <- HM, <- HN, <- Hseries.
  repeat match goal with
         | |- context [if ?b then _ else _] => destruct b
         | |- context [match accepted_qList q with _ => _ end] => destruct (accepted_qList q)
         end;
    cbn [result final listH set_nStep set_qList];
    (split; [reflexivity | split; [reflexivity |]]);
    intros Hok; try (exfalso; apply Hok; eexists; reflexivity).
  unfold same_but_listH. cbn. repeat split; reflexivity.
Qed.

End ComputeOutcomes.

(** ** Reading methods, and what a fit leaves in place *)

Lemma computeMassExponents_arrays (s : MFDFA) (H qs : list float) :
  isComputed s = true -> listH s = Some H -> qList s = Some qs ->
  computeMassExponents s =
  match np_binop PrimFloat.mul H qs with
  | inr p => Outcome (inr (Some (map (fun x => PrimFloat.sub x 1%float) p))) s []
  | inl e => Outcome (inl e) s []
  end.
Proof.
  intros Hflag HH Hq. unfold computeMassExponents.
  rewrite bind_get_run, Hflag, HH, Hq, np_mul_attr_arrays.
  destruct (np_binop PrimFloat.mul H qs) as [e | p].
  - now rewrite bind_lift_inl_run.
  - now rewrite bind_lift_inr_run.
Qed.

Lemma np_binop_mismatch (f : float -> float -> float) (a b : list float) :
  length a <> length b -> length a <> 1%nat -> length b <> 1%nat ->
  np_binop f a b = inl BroadcastError.
Proof.
  intros Hab Ha Hb. unfold np_binop.
  destruct (Nat.eqb_spec (length a) (length b)); [contradiction |].
  destruct a as [| x [| x' a]], b as [| y [| y' b]]; simpl in *; congruence.
Qed.

(** X6.  [computeMassExponents] and [computeMultifractalSpectrum] only read
    the object: whatever they return or raise, the object is unchanged, so a
    repeated call, or either call after the other, gives the same outcome. *)
Theorem X6_derived_quantities_read_only (s : MFDFA) :
  final (computeMassExponents s) = s /\
  final (computeMultifractalSpectrum s) = s /\
  computeMassExponents (final (computeMassExponents s)) = computeMassExponents s /\
  computeMultifractalSpectrum (final (computeMultifractalSpectrum s))
  = computeMultifractalSpectrum s /\
  computeMultifractalSpectrum (final (computeMassExponents s))
  = computeMultifractalSpectrum s /\
  computeMassExponents (final (computeMultifractalSpectrum s)) = computeMassExponents s.
Proof.
  rewrite computeMassExponents_final, computeMultifractalSpectrum_final.
  repeat split; reflexivity.
Qed.

Section FitOutcomes.

Variable flucMFDFAForwCompute : list float -> Z -> float -> Z -> Z -> float.
Variable flucMFDFAForwBackwCompute : list float -> Z -> float -> Z -> Z -> float.
Variable np_log : float -> float.
Variable np_polyfit1 : list float -> list float -> exn + (float * float).
Variable format_2f : float -> string.
Variable can_allocate : Z -> bool.

#[local] Abbreviation computeFlucVec :=
  (computeFlucVec flucMFDFAForwCompute flucMFDFAForwBackwCompute can_allocate).
#[local] Abbreviation fitFlucVec := (fitFlucVec np_log np_polyfit1 format_2f).
#[local] Abbreviation reachable :=
  (reachable flucMFDFAForwCompute flucMFDFAForwBackwCompute np_log np_polyfit1 format_2f
             can_allocate).

(** X5.  Whatever [fitFlucVec] returns or raises -- also when [np.polyfit]
    fails in the middle of the loop -- the only attribute it can have changed
    is [listH]: the series, the scales, the matrix, the q-orders, the step
    and [isComputed] are as before the call. *)
Theorem X5_fitFlucVec_changes_listH_only (nStart nEnd : Z) (base : float) (verbose : bool)
        (s : MFDFA) :
  n (final (fitFlucVec nStart nEnd base verbose s)) = n s /\
  tsVec (final (fitFlucVec nStart nEnd base verbose s)) = tsVec s /\
  F (final (fitFlucVec nStart nEnd base verbose s)) = F s /\
  qList (final (fitFlucVec nStart nEnd base verbose s)) = qList s /\
  nStep (final (fitFlucVec nStart nEnd base verbose s)) = nStep s /\
  isComputed (final (fitFlucVec nStart nEnd base verbose s)) = isComputed s.
Proof. exact (fitFlucVec_keeps np_log np_polyfit1 format_2f nStart nEnd base verbose s). Qed.

(** X8.  No method call changes the stored series, and none clears
    [isComputed]: once a fluctuation matrix has been computed the object
    stays computed, also through calls that raise. *)
Theorem X8_series_and_flag_persist (s : MFDFA) :
  (forall nMin q nMax polOrd nStep revSeg,
      tsVec (final (computeFlucVec nMin q nMax polOrd nStep revSeg s)) = tsVec s /\
      (isComputed s = true ->
       isComputed (final (computeFlucVec nMin q nMax polOrd nStep revSeg s)) = true)) /\
  (forall nStart nEnd base verbose,
      tsVec (final (fitFlucVec nStart nEnd base verbose s)) = tsVec s /\
      (isComputed s = true ->
       isComputed (final (fitFlucVec nStart nEnd base verbose s)) = true)) /\
  (tsVec (final (computeMassExponents s)) = tsVec s /\
   (isComputed s = true -> isComputed (final (computeMassExponents s)) = true)) /\
  (tsVec (final (computeMultifractalSpectrum s)) = tsVec s /\
   (isComputed s = true -> isComputed (final (computeMultifractalSpectrum s)) = true)).
Proof.
  split; [| split; [| split]].
  - intros nMin q nMax polOrd nStep revSeg.
    destruct (computeFlucVec_cases flucMFDFAForwCompute flucMFDFAForwBackwCompute
                can_allocate nMin q nMax polOrd nStep revSeg s)
      as [(e & _ & He) | (ql & _ & _ & _ & He)]; rewrite He; [split; auto |].
    destruct (enough_memory _ _ _ _); split; auto.
  - intros nStart nEnd base verbose.
    destruct (fitFlucVec_keeps np_log np_polyfit1 format_2f nStart nEnd base verbose s)
      as (_ & Hts & _ & _ & _ & Hf).
    split; [exact Hts | intros; congruence].
  - rewrite computeMassExponents_final. split; auto.
  - rewrite computeMultifractalSpectrum_final. split; auto.
Qed.

(** X7.  In every state of a session -- an object built by the constructor
    and used through the four methods, whatever they return or raise, while
    no [computeFlucVec] has run out of memory: the stored series holds no
    NaN; before the first successful [computeFlucVec] none of [n], [F],
    [qList], [listH] is set; once [isComputed] is set, [n] is a strictly
    increasing progression of step [nStep] whose windows all lie between 3
    and the length of the series, and [F] has one row per q-order and one
    column per scale.  The scale set is not empty when the series has fewer
    values than the largest C int (at nMax = INT_MAX the sum nMax + 1 wraps
    around and no scale is stored).  Slopes are stored only on a computed
    object. *)
Theorem X7_session_invariant (s : MFDFA) (Hreach : reachable s) :
  Forall (fun x => np_isnan x = false) (tsVec s) /\
  (isComputed s = false ->
   n s = None /\ F s = None /\ qList s = None /\ listH s = None) /\
  (isComputed s = true ->
   exists ns qs Fm,
     n s = Some ns /\ qList s = Some qs /\ F s = Some Fm /\
     (tsLen_of s < INT_MAX -> ns <> []) /\ StronglySorted Z.lt ns /\
     Forall (fun w => 3 <= w <= tsLen_of s) ns /\
     1 <= nStep s /\
     (forall i a b, nth_error ns i = Some a -> nth_error ns (S i) = Some b ->
                    b = a + nStep s) /\
     length Fm = length qs /\
     Forall (fun row => length row = length ns) Fm) /\
  (forall H, listH s = Some H -> isComputed s = true).
Proof.
  destruct (reachable_invariant _ _ _ _ _ _ s Hreach) as [Hnan Hinv].
  split; [exact Hnan |].
  split; [| split].
  - intros Hflag. rewrite Hflag in Hinv. tauto.
  - intros Hflag. rewrite Hflag in Hinv.
    destruct Hinv as [(nMin & nMax & qs & Fm & Hc & Hb) | (qs & Hc)].
    + pose proof (computed_nStep _ _ _ _ _ Hc) as Hst.
      pose proof (computed_nMax _ _ _ _ _ Hc) as [Hlt _].
      pose proof (computed_nMin _ _ _ _ _ Hc) as Hmin.
      exists (np_arange nMin (nMax + 1) (nStep s)), qs, Fm.
      split; [exact (computed_n _ _ _ _ _ Hc) |].
      split; [exact (computed_qList _ _ _ _ _ Hc) |].
      split; [exact (computed_F _ _ _ _ _ Hc) |].
      split; [intros _; now apply scales_nonempty |].
      split; [apply np_arange_sorted; lia |].
      split.
      { apply Forall_forall. intros w Hw.
        apply (np_arange_scale_range nMin nMax (nStep s)) in Hw; lia. }
      split; [exact Hst |].
      split.
      { intros i a b Ha Hb'. rewrite np_arange_nth_error in Ha, Hb'.
        destruct (_ <? _)%nat in Ha; [| discriminate].
        destruct (_ <? _)%nat in Hb'; [| discriminate].
        assert (Ea : a = nMin + Z.of_nat i * nStep s) by congruence.
        assert (Eb : b = nMin + Z.of_nat (S i) * nStep s) by congruence.
        rewrite Ea, Eb, Nat2Z.inj_succ. nia. }
      split; [exact (computed_rows _ _ _ _ _ Hc) | exact (computed_cols _ _ _ _ _ Hc)].
    + exists [], qs, (map (fun _ => []) qs).
      split; [exact (empty_n _ _ Hc) |].
      split; [exact (empty_qList _ _ Hc) |].
      split; [exact (empty_F _ _ Hc) |].
      split; [intros Hlen; pose proof (empty_len _ _ Hc); lia |].
      split; [constructor |].
      split; [constructor |].
      split; [exact (empty_nStep _ _ Hc) |].
      split; [intros [| i] a b Ha; discriminate |].
      split; [apply length_map |].
      apply Forall_forall. intros row Hrow. apply in_map_iff in Hrow.
      destruct Hrow as (q & <- & _). reflexivity.
  - intros H HH. destruct (isComputed s); [reflexivity |].
    destruct Hinv as (_ & _ & _ & Hl). congruence.
Qed.

(** X4.  A fit is not cleared by a later [computeFlucVec]: the slopes stay in
    [listH] while the q-orders are replaced.  [computeMassExponents] then
    pairs the old slopes with the new q-orders without any error when there
    are as many of each, stretches a single new q-order over all the old
    slopes, stretches a single old slope over all the new q-orders, and
    raises numpy's broadcast [ValueError] only when the two counts differ
    and neither is 1. *)
Theorem X4_stale_fit_after_recompute (s : MFDFA) (Hreach : reachable s)
        (nStart nEnd : Z) (base : float) (verbose : bool) (H I : list float)
        (Hfit : result (fitFlucVec nStart nEnd base verbose s) = inr (Some (H, I)))
        (nMin : Z) (q : pyval) (nMax polOrd nStep : Z) (revSeg : bool)
        (Hcomp : ~ raises (computeFlucVec nMin q nMax polOrd nStep revSeg
                                          (final (fitFlucVec nStart nEnd base verbose s)))) :
  exists ql,
    accepted_qList q = Some ql /\
    listH (final (computeFlucVec nMin q nMax polOrd nStep revSeg
                                 (final (fitFlucVec nStart nEnd base verbose s)))) = Some H /\
    qList (final (computeFlucVec nMin q nMax polOrd nStep revSeg
                                 (final (fitFlucVec nStart nEnd base verbose s)))) = Some ql /\
    (length ql = length H ->
     result (computeMassExponents
               (final (computeFlucVec nMin q nMax polOrd nStep revSeg
                                      (final (fitFlucVec nStart nEnd base verbose s)))))
     = inr (Some (zip_with tau_of H ql))) /\
    (forall qv, ql = [qv] -> length H <> 1%nat ->
     result (computeMassExponents
               (final (computeFlucVec nMin q nMax polOrd nStep revSeg
                                      (final (fitFlucVec nStart nEnd base verbose s)))))
     = inr (Some (map (fun h => tau_of h qv) H))) /\
    (forall h, H = [h] -> length ql <> 1%nat ->
     result (computeMassExponents
               (final (computeFlucVec nMin q nMax polOrd nStep revSeg
                                      (final (fitFlucVec nStart nEnd base verbose s)))))
     = inr (Some (map (fun qv => tau_of h qv) ql))) /\
    (length ql <> length H -> length ql <> 1%nat -> length H <> 1%nat ->
     result (computeMassExponents
               (final (computeFlucVec nMin q nMax polOrd nStep revSeg
                                      (final (fitFlucVec nStart nEnd base verbose s)))))
     = inl BroadcastError).
Proof.
  assert (Hflag : isComputed s = true).
  { destruct (isComputed s) eqn:Hf; [reflexivity |]. exfalso. revert Hfit.
    rewrite (fitFlucVec_not_computed _ _ _ _ _ _ _ _ Hf).
    destruct (in_c_int nStart && in_c_int nEnd); discriminate. }
  destruct (fitted_computed _ _ _ _ _ _ s nStart nEnd base verbose _ Hreach Hflag Hfit)
    as (nMin0 & nMax0 & qs & Fm & Hc).
  destruct (computeMassExponents_after_fit np_log np_polyfit1 format_2f s nMin0 nMax0 qs Fm
              Hc nStart nEnd base verbose H I Hfit) as (_ & HH & _).
  set (s1 := final (fitFlucVec nStart nEnd base verbose s)) in *.
  destruct (computeFlucVec_cases flucMFDFAForwCompute flucMFDFAForwBackwCompute
              can_allocate nMin q nMax polOrd nStep revSeg s1)
    as [(e & _ & He) | (ql & Hq & _ & _ & He)].
  { exfalso. apply Hcomp. exists e. now rewrite He. }
  destruct (enough_memory _ _ _ _).
  2:{ exfalso. apply Hcomp. exists MemoryError. now rewrite He. }
  rewrite He. cbn [final]. exists ql.
  split; [exact Hq |]. split; [exact HH |]. split; [reflexivity |].
  match goal with
  | |- context [computeMassExponents ?st] =>
      pose proof (computeMassExponents_arrays st H ql eq_refl HH eq_refl) as Hm
  end.
  split; [| split; [| split]].
  - intros Hlen. rewrite Hm. unfold np_binop. rewrite <- Hlen, Nat.eqb_refl.
    cbn [result]. now rewrite map_zip_with.
  - intros qv -> Hne. rewrite Hm. unfold np_binop.
    destruct (Nat.eqb_spec (length H) (length [qv])) as [Heq | _];
      [simpl in Heq; contradiction |].
    destruct H as [| h [| h' H']]; [reflexivity | simpl in Hne; congruence |].
    cbn [result]. now rewrite map_map.
  - intros h -> Hne. rewrite Hm. unfold np_binop.
    destruct (Nat.eqb_spec (length [h]) (length ql)) as [Heq | _];
      [simpl in Heq; congruence |].
    cbn [result]. now rewrite map_map.
  - intros Hne Hq1 HH1. rewrite Hm.
    rewrite np_binop_mismatch by congruence. reflexivity.
Qed.

End FitOutcomes.

(** ** The fitting loop in full: result, slopes left behind, lines printed *)

Lemma map_exn_prefix_success {A B} (f : A -> exn + B) (l : list A) (ys : list B) :
  map_exn f l = inr ys -> map_exn_prefix f l = ys.
Proof.
  revert ys. induction l as [| x l IH]; intros ys; simpl.
  - intros H. now injection H as <-.
  - destruct (f x) as [e | y]; [discriminate |].
    destruct (map_exn f l) as [e | ys']; [discriminate |].
    intros H. injection H as <-. now rewrite (IH ys').
Qed.

Lemma map_exn_prefix_failure {A B} (f : A -> exn + B) (l : list A) (e : exn) :
  map_exn f l = inl e -> (length (map_exn_prefix f l) < length l)%nat.
Proof.
  induction l as [| x l IH]; simpl; [discriminate |].
  destruct (f x) as [e' | y]; [simpl; lia |].
  destruct (map_exn f l) as [e' | ys']; [| discriminate].
  intros H. simpl. apply IH in H. lia.
Qed.

Lemma map_exn_prefix_ext_in {A B} (f g : A -> exn + B) (l : list A) :
  (forall x, In x l -> f x = g x) -> map_exn_prefix f l = map_exn_prefix g l.
Proof.
  induction l as [| x l IH]; intros H; simpl; [reflexivity |].
  rewrite (H x) by now left.
  rewrite IH by (intros y Hy; apply H; now right). reflexivity.
Qed.

Lemma skipn_replaced {A} (l : list A) (i j : nat) (v : A) :
  (i < j)%nat -> (i < length l)%nat -> skipn j (replaced l i v) = skipn j l.
Proof.
  intros Hij Hi. unfold replaced.
  rewrite skipn_app, length_firstn, Nat.min_l by lia.
  rewrite (skipn_all2 (firstn i l)) by (rewrite length_firstn; lia).
  replace (j - i)%nat with (S (j - i - 1)) by lia.
  cbn [app]. rewrite skipn_cons, skipn_skipn. f_equal. lia.
Qed.

Lemma zip_with_nil_r {A B C} (f : A -> B -> C) (l : list A) : zip_with f l [] = [].
Proof. destruct l; reflexivity. Qed.

Section FitLoop.

Variable np_log : float -> float.
Variable np_polyfit1 : list float -> list float -> exn + (float * float).
Variable format_2f : float -> string.

#[local] Abbreviation fitFlucVec := (fitFlucVec np_log np_polyfit1 format_2f).
#[local] Abbreviation fit_step := (fit_step np_log np_polyfit1 format_2f).

(** The loop from index [k] on, whether or not a fit fails on the way. *)
Lemma fit_loop_outcome (start end_ : Z) (base : float) (verbose : bool) (ns : list Z)
      (Fm : list (list float)) (qs : list float) :
  INT_MIN <= end_ + 1 <= INT_MAX ->
  length Fm = length qs ->
  forall (m k : nat) (s : MFDFA) (h icpt : list float),
    n s = Some ns -> F s = Some Fm -> qList s = Some qs -> listH s = Some h ->
    length h = length qs -> length icpt = length qs -> (k + m = length qs)%nat ->
    foldM (fit_step start end_ base verbose) (seq k m) icpt s =
    Outcome
      (match map_exn (fun row =>
                np_polyfit1
                  (map (fun w => log_base np_log base (float_of_Z w))
                       (py_slice ns start (end_ + 1)))
                  (map (log_base np_log base) (py_slice row start (end_ + 1))))
               (skipn k Fm) with
       | inr ps => inr (firstn k icpt ++ map snd ps)
       | inl e => inl e
       end)
      (set_listH
         (firstn k h
          ++ map fst (map_exn_prefix (fun row =>
                np_polyfit1
                  (map (fun w => log_base np_log base (float_of_Z w))
                       (py_slice ns start (end_ + 1)))
                  (map (log_base np_log base) (py_slice row start (end_ + 1))))
               (skipn k Fm))
          ++ skipn (k + length (map_exn_prefix (fun row =>
                np_polyfit1
                  (map (fun w => log_base np_log base (float_of_Z w))
                       (py_slice ns start (end_ + 1)))
                  (map (log_base np_log base) (py_slice row start (end_ + 1))))
               (skipn k Fm))) h) s)
      (if verbose
       then fit_lines format_2f (skipn k qs)
              (map_exn_prefix (fun row =>
                np_polyfit1
                  (map (fun w => log_base np_log base (float_of_Z w))
                       (py_slice ns start (end_ + 1)))
                  (map (log_base np_log base) (py_slice row start (end_ + 1))))
               (skipn k Fm))
       else []).
Proof.
  intros Hend HFq.
  set (f := fun row : list float =>
              np_polyfit1
                (map (fun w => log_base np_log base (float_of_Z w))
                     (py_slice ns start (end_ + 1)))
                (map (log_base np_log base) (py_slice row start (end_ + 1)))).
  induction m as [| m IH]; intros k s h icpt Hn HF Hq Hh Hlh Hli Hk.
  - rewrite (skipn_all2 Fm) by lia. cbn [seq foldM map_exn map_exn_prefix map length].
    rewrite !firstn_all2 by lia. rewrite !app_nil_r by lia.
    rewrite (skipn_all2 h) by lia. rewrite app_nil_r, (set_listH_same s h Hh).
    unfold fit_lines. rewrite zip_with_nil_r. destruct verbose; reflexivity.
  - destruct (nth_error Fm k) as [row |] eqn:Hrow;
      [| apply nth_error_None in Hrow; lia].
    destruct (nth_error qs k) as [q |] eqn:Hqk;
      [| apply nth_error_None in Hqk; lia].
    rewrite (skipn_nth_error _ _ _ Hrow), (skipn_nth_error _ _ _ Hqk).
    cbn [seq foldM map_exn map_exn_prefix]. unfold bind.
    rewrite (fit_step_run np_log np_polyfit1 format_2f start end_ base verbose icpt k s
               ns Fm row h qs q) by (assumption || lia).
    change (np_polyfit1
              (map (fun w => log_base np_log base (float_of_Z w))
                   (py_slice ns start (end_ + 1)))
              (map (log_base np_log base) (py_slice row start (end_ + 1))))
      with (f row).
    destruct (f row) as [e | p].
    + cbn [result final printed map length app].
      rewrite Nat.add_0_r, firstn_skipn, (set_listH_same s h Hh).
      unfold fit_lines. cbn [zip_with]. destruct verbose; reflexivity.
    + cbn [result final printed].
      rewrite (IH (S k) (set_listH (replaced h k (fst p)) s)
                  (replaced h k (fst p)) (replaced icpt k (snd p)))
        by (rewrite ?length_replaced by lia; (reflexivity || assumption || lia)).
      cbn [result final printed map length].
      rewrite !firstn_S_replaced by lia.
      rewrite skipn_replaced by lia.
      replace (k + S (length (map_exn_prefix f (skipn (S k) Fm))))%nat
        with (S k + length (map_exn_prefix f (skipn (S k) Fm)))%nat by lia.
      rewrite <- !app_assoc. cbn [app].
      f_equal.
      * destruct (map_exn f (skipn (S k) Fm)) as [e | ps]; [reflexivity |].
        now rewrite <- app_assoc.
      * unfold fit_lines. cbn [zip_with]. destruct verbose; reflexivity.
Qed.

End FitLoop.

Lemma bind_print_run {B} (line : string) (k : unit -> M B) (s : MFDFA) :
  bind (print line) k s =
  Outcome (result (k tt s)) (final (k tt s)) (line :: printed (k tt s)).
Proof. reflexivity. Qed.

Lemma skipn_np_zeros (j len : nat) : skipn j (np_zeros len) = np_zeros (len - j).
Proof.
  unfold np_zeros. revert j. induction len as [| len IH]; intros j.
  - now rewrite skipn_nil.
  - destruct j as [| j]; [reflexivity |]. cbn [repeat]. rewrite skipn_cons. apply IH.
Qed.

Lemma filter_all {A} (p : A -> bool) (l : list A) :
  (forall x, In x l -> p x = true) -> filter p l = l.
Proof.
  induction l as [| x l IH]; intros H; simpl; [reflexivity |].
  rewrite (H x) by now left. f_equal. apply IH. intros y Hy. apply H. now right.
Qed.

(** ** [fitFlucVec] past the range checks, in full *)

Section FitOutcome.

Variable np_log : float -> float.
Variable np_polyfit1 : list float -> list float -> exn + (float * float).
Variable format_2f : float -> string.
Variable s : MFDFA.
Variables nMin nMax : Z.
Variable qs : list float.
Variable Fm : list (list float).
Hypothesis Hc : computed s nMin nMax qs Fm.

#[local] Abbreviation fitFlucVec := (fitFlucVec np_log np_polyfit1 format_2f).
#[local] Abbreviation fitFlucVec_body := (fitFlucVec_body np_log np_polyfit1 format_2f).
#[local] Abbreviation ns := (np_arange nMin (nMax + 1) (nStep s)).

Lemma fit_body_outcome (nStart nEnd : Z) (base : float) (verbose : bool) :
  valid_limits ns (effective_nStart ns nStart) (effective_nEnd ns nEnd) = true ->
  fitFlucVec_body nStart nEnd base verbose s =
  Outcome
    (match map_exn (fit_row np_log np_polyfit1 base (effective_nStart ns nStart)
                            (effective_nEnd ns nEnd) ns) Fm with
     | inr ps => inr (Some (map fst ps, map snd ps))
     | inl e => inl e
     end)
    (set_listH
       (map fst (map_exn_prefix (fit_row np_log np_polyfit1 base (effective_nStart ns nStart)
                                         (effective_nEnd ns nEnd) ns) Fm)
        ++ np_zeros (length qs
                     - length (map_exn_prefix
                                 (fit_row np_log np_polyfit1 base (effective_nStart ns nStart)
                                          (effective_nEnd ns nEnd) ns) Fm))) s)
    (if verbose
     then msg_fit_limits (effective_nStart ns nStart) (effective_nEnd ns nEnd)
          :: fit_lines format_2f qs
               (map_exn_prefix (fit_row np_log np_polyfit1 base (effective_nStart ns nStart)
                                        (effective_nEnd ns nEnd) ns) Fm)
     else []).
Proof.
  intros Hv.
  pose proof (computed_nStep _ _ _ _ _ Hc) as Hst.
  pose proof (computed_nMax _ _ _ _ _ Hc) as [Hlt Hmax].
  pose proof (computed_nMin _ _ _ _ _ Hc) as Hmin.
  pose proof (computed_rows _ _ _ _ _ Hc) as Hrows.
  pose proof (scales_hd nMin nMax (nStep s) Hlt Hst) as Hhd.
  pose proof (scales_last nMin nMax (nStep s) Hlt Hst) as Hlast.
  destruct (np_arange_scale_length nMin nMax (nStep s) Hlt ltac:(lia)) as [Hone Hceil].
  destruct (valid_limits_positions s nMin nMax qs Fm Hc _ _ Hv) as (i & j & Hij & Ha & Hb).
  apply valid_limits_iff in Hv. destruct Hv as (Hab & Hlo & Hhi & Hina & Hinb).
  set (a := effective_nStart ns nStart) in *.
  set (b := effective_nEnd ns nEnd) in *.
  set (g := fun row : list float =>
              np_polyfit1
                (map (fun w => log_base np_log base (float_of_Z w))
                     (py_slice ns (Z.of_nat i) (Z.of_nat j + 1)))
                (map (log_base np_log base) (py_slice row (Z.of_nat i) (Z.of_nat j + 1)))).
  assert (Hext : forall row, In row Fm -> g row = fit_row np_log np_polyfit1 base a b ns row).
  { intros row Hrow. unfold g, fit_row.
    pose proof (computed_cols _ _ _ _ _ Hc) as Hcols.
    rewrite Forall_forall in Hcols. specialize (Hcols row Hrow).
    rewrite (scales_slice nMin nMax (nStep s) Hst i j Hij).
    rewrite (row_slice nMin nMax (nStep s) Hst i j row Hij Hcols).
    rewrite <- Ha, <- Hb. reflexivity. }
  rewrite <- (map_exn_ext_in g _ Fm Hext), <- (map_exn_prefix_ext_in g _ Fm Hext).
  assert (Hrange : forall k : nat, (k < length ns)%nat -> in_c_int (Z.of_nat k) = true).
  { intros k Hk. unfold in_c_int, INT_MIN, INT_MAX in *.
    apply andb_true_iff. split; apply Z.leb_le; nia. }
  assert (Hend : INT_MIN <= Z.of_nat j + 1 <= INT_MAX).
  { unfold INT_MIN, INT_MAX in *. nia. }
  assert (Hpre : fitFlucVec_body nStart nEnd base verbose s =
                 bind (when verbose (print (msg_fit_limits a b)))
                      (fun _ : unit =>
                         list_H_intercept <-
                           foldM (fit_step np_log np_polyfit1 format_2f (Z.of_nat i)
                                           (Z.of_nat j) base verbose)
                                 (seq 0 (length qs)) (np_zeros (length qs)) ;;
                         s0 <- get ;; h <- need (listH s0) ;;
                         ret (Some (h, list_H_intercept)))
                      (set_listH (np_zeros (length qs)) s)).
  { open_fitFlucVec_body. rewrite bind_get_run.
    rewrite (computed_flag _ _ _ _ _ Hc).
    rewrite (resolve_nStart_run s nMin nMax qs Fm Hc),
            (resolve_nEnd_run s nMin nMax qs Fm Hc). fold a b.
    replace (a >? b) with false by (symmetry; rewrite Z.gtb_ltb; apply Z.ltb_ge; lia).
    rewrite bind_when_false_run, (n_first_run s nMin nMax qs Fm Hc),
            (outside_run s nMin nMax qs Fm Hc).
    replace (a <? hd 0 ns) with false by (symmetry; apply Z.ltb_ge; lia).
    replace (b >? last ns 0) with false
      by (symmetry; rewrite Z.gtb_ltb; apply Z.ltb_ge; lia).
    cbn [orb]. rewrite bind_when_false_run, (self_n_run s nMin nMax qs Fm Hc).
    replace (np_contains a ns) with true
      by (symmetry; apply existsb_exists; exists a; split; [exact Hina | apply Z.eqb_refl]).
    replace (np_contains b ns) with true
      by (symmetry; apply existsb_exists; exists b; split; [exact Hinb | apply Z.eqb_refl]).
    cbn [negb orb]. rewrite bind_when_false_run.
    rewrite (computed_qList _ _ _ _ _ Hc). unfold need at 1. rewrite bind_ret_run.
    cbn zeta. rewrite (n_first_run s nMin nMax qs Fm Hc), Hhd.
    unfold int_truediv.
    replace (nStep s =? 0) with false by (symmetry; apply Z.eqb_neq; lia).
    rewrite bind_ret_run.
    replace (Z.quot (a - nMin) (nStep s)) with (Z.of_nat i)
      by (rewrite Ha;
          replace (nMin + Z.of_nat i * nStep s - nMin) with (Z.of_nat i * nStep s) by lia;
          symmetry; apply Z.quot_mul; lia).
    rewrite to_c_int_run, Hrange by lia.
    rewrite (n_first_run s nMin nMax qs Fm Hc), Hhd, bind_ret_run.
    replace (Z.quot (b - nMin) (nStep s)) with (Z.of_nat j)
      by (rewrite Hb;
          replace (nMin + Z.of_nat j * nStep s - nMin) with (Z.of_nat j * nStep s) by lia;
          symmetry; apply Z.quot_mul; lia).
    rewrite to_c_int_run, Hrange by lia.
    rewrite bind_modify_run. reflexivity. }
  rewrite Hpre. clear Hpre.
  pose proof (fit_loop_outcome np_log np_polyfit1 format_2f (Z.of_nat i) (Z.of_nat j) base
                verbose ns Fm qs Hend Hrows (length qs) 0%nat
                (set_listH (np_zeros (length qs)) s)
                (np_zeros (length qs)) (np_zeros (length qs))
                (computed_n _ _ _ _ _ Hc) (computed_F _ _ _ _ _ Hc)
                (computed_qList _ _ _ _ _ Hc) eq_refl
                (repeat_length _ _) (repeat_length _ _) eq_refl) as Hloop.
  cbn [skipn firstn app Nat.add] in Hloop. fold g in Hloop.
  assert (Hrest :
            bind (foldM (fit_step np_log np_polyfit1 format_2f (Z.of_nat i) (Z.of_nat j)
                                  base verbose)
                        (seq 0 (length qs)) (np_zeros (length qs)))
                 (fun list_H_intercept =>
                    s0 <- get ;; h <- need (listH s0) ;;
                    ret (Some (h, list_H_intercept)))
                 (set_listH (np_zeros (length qs)) s)
            = Outcome
                (match map_exn g Fm with
                 | inr ps => inr (Some (map fst ps, map snd ps))
                 | inl e => inl e
                 end)
                (set_listH (map fst (map_exn_prefix g Fm)
                            ++ np_zeros (length qs - length (map_exn_prefix g Fm))) s)
                (if verbose then fit_lines format_2f qs (map_exn_prefix g Fm) else [])).
  { unfold bind at 1. rewrite Hloop. cbn [result final printed].
    rewrite skipn_np_zeros.
    destruct (map_exn g Fm) as [e | ps] eqn:Hps.
    - reflexivity.
    - rewrite (map_exn_prefix_success g Fm ps Hps).
      rewrite bind_get_run. cbn [listH set_listH]. unfold need. rewrite bind_ret_run.
      unfold ret. cbn [result final printed].
      rewrite (map_exn_length g Fm ps Hps), Hrows, Nat.sub_diag.
      cbn [np_zeros repeat]. rewrite !app_nil_r. reflexivity. }
  destruct verbose.
  - unfold when. rewrite bind_print_run, Hrest. reflexivity.
  - rewrite bind_when_false_run, Hrest. reflexivity.
Qed.

Lemma fitFlucVec_outcome (nStart nEnd : Z) (base : float) (verbose : bool) :
  valid_limits ns (effective_nStart ns nStart) (effective_nEnd ns nEnd) = true ->
  fitFlucVec nStart nEnd base verbose s =
  Outcome
    (match map_exn (fit_row np_log np_polyfit1 base (effective_nStart ns nStart)
                            (effective_nEnd ns nEnd) ns) Fm with
     | inr ps => inr (Some (map fst ps, map snd ps))
     | inl e => inl e
     end)
    (set_listH
       (map fst (map_exn_prefix (fit_row np_log np_polyfit1 base (effective_nStart ns nStart)
                                         (effective_nEnd ns nEnd) ns) Fm)
        ++ np_zeros (length qs
                     - length (map_exn_prefix
                                 (fit_row np_log np_polyfit1 base (effective_nStart ns nStart)
                                          (effective_nEnd ns nEnd) ns) Fm))) s)
    (if verbose
     then msg_fit_limits (effective_nStart ns nStart) (effective_nEnd ns nEnd)
          :: fit_lines format_2f qs
               (map_exn_prefix (fit_row np_log np_polyfit1 base (effective_nStart ns nStart)
                                        (effective_nEnd ns nEnd) ns) Fm)
     else []).
Proof.
  intros Hv.
  rewrite fitFlucVec_run,
    (valid_limits_in_c_int s nMin nMax qs Fm Hc _ _ Hv).
  now apply fit_body_outcome.
Qed.

End FitOutcome.

(** ** Series length, largest window *)

Section ComputeEdges.

Variable flucMFDFAForwCompute : list float -> Z -> float -> Z -> Z -> float.
Variable flucMFDFAForwBackwCompute : list float -> Z -> float -> Z -> Z -> float.
Variable can_allocate : Z -> bool.

#[local] Abbreviation computeFlucVec :=
  (computeFlucVec flucMFDFAForwCompute flucMFDFAForwBackwCompute can_allocate).

(** X9.  The checks put a floor under the series length: with an explicit
    [nMax] a series of fewer than 4 values, and with [nMax] left out (window
    limit floor(N / 4)) a series of fewer than 16 values, makes
    [computeFlucVec] raise [ValueError] whatever the other arguments are; the
    object is unchanged. *)
Theorem X9_series_too_short (nMin : Z) (q : pyval) (nMax polOrd nStep : Z) (revSeg : bool)
        (s : MFDFA) (Hshort : tsLen_of s < (if nMax =? -999 then 16 else 4)) :
  exists msg,
    computeFlucVec nMin q nMax polOrd nStep revSeg s = Outcome (inl (ValueError msg)) s [].
Proof.
  destruct (first_failing polOrd nStep nMin (effective_nMax s nMax) (tsLen_of s))
    as [c |] eqn:Hc.
  - rewrite (computeFlucVec_first_failing _ _ _ _ _ _ _ _ _ _ c Hc).
    destruct c; eexists; reflexivity.
  - exfalso. apply first_failing_none in Hc. unfold effective_nMax in Hc.
    destruct (nMax =? -999).
    + pose proof (Z.mul_div_le (tsLen_of s) 4 ltac:(lia)). lia.
    + lia.
Qed.

(** X10.  The scale set of a successful [computeFlucVec], [nMax] being the
    value after the default has been resolved.  For nMax below the largest C
    int it starts at nMin and ends at the largest nMin + k * nStep that does
    not exceed nMax, that is at nMax - (nMax - nMin) mod nStep: nMax itself
    is a scale exactly when nStep divides nMax - nMin, and there is a single
    scale exactly when nStep exceeds nMax - nMin.  For nMax the largest C
    int (the series then has that many values) the C sum nMax + 1 wraps
    around and the scale set is empty. *)
Theorem X10_largest_scale (nMin : Z) (q : pyval) (nMax polOrd nStep : Z) (revSeg : bool)
        (s : MFDFA) (vecn : list Z) (Fm : list (list float))
        (Hrun : result (computeFlucVec nMin q nMax polOrd nStep revSeg s) = inr (vecn, Fm)) :
  (effective_nMax s nMax < INT_MAX ->
   hd 0 vecn = nMin /\
   last vecn 0 = effective_nMax s nMax - (effective_nMax s nMax - nMin) mod nStep /\
   (In (effective_nMax s nMax) vecn <-> (effective_nMax s nMax - nMin) mod nStep = 0) /\
   (length vecn = 1%nat <-> effective_nMax s nMax - nMin < nStep)) /\
  (effective_nMax s nMax = INT_MAX -> vecn = []).
Proof.
  destruct (computeFlucVec_cases flucMFDFAForwCompute flucMFDFAForwBackwCompute
              can_allocate nMin q nMax polOrd nStep revSeg s)
    as [(e & _ & He) | (ql & _ & Hv & _ & He)]; rewrite He in Hrun; [discriminate |].
  destruct (enough_memory _ _ _ _); [| discriminate].
  cbn [result] in Hrun. injection Hrun as <- _.
  apply first_failing_none in Hv.
  set (M := effective_nMax s nMax) in *.
  split.
  2:{ intros ->. apply scale_set_wraps; unfold INT_MIN; lia. }
  intros Hint. rewrite c_int_add_fits by (unfold INT_MIN; lia).
  assert (Hlt : nMin < M) by lia. assert (Hst : 1 <= nStep) by lia.
  pose proof (scales_hd nMin M nStep Hlt Hst) as Hhd.
  pose proof (scales_last nMin M nStep Hlt Hst) as Hlast.
  destruct (np_arange_scale_length nMin M nStep Hlt ltac:(lia)) as [Hone Hceil].
  set (len := Z.of_nat (length (np_arange nMin (M + 1) nStep))) in *.
  assert (Hmod : (M - nMin) mod nStep = M - nMin - (len - 1) * nStep).
  { symmetry. apply (Z.mod_unique (M - nMin) nStep (len - 1)); [left |]; lia. }
  split; [exact Hhd |].
  split; [rewrite Hlast, Hmod; lia |].
  split.
  - split.
    + intros Hin. apply np_arange_In in Hin. destruct Hin as (i & Hi & HM).
      replace (M - nMin) with (Z.of_nat i * nStep) by lia.
      apply Z.mod_mul. lia.
    + intros H0. apply np_arange_In. exists (Z.to_nat (len - 1)).
      split; [subst len; lia |]. rewrite Z2Nat.id by lia. lia.
  - subst len. split; intros H1; [| nia]. rewrite H1 in *. lia.
Qed.

End ComputeEdges.

(** ** Default limits, failed fits, verbosity *)

Section FitEdges.

Variable flucMFDFAForwCompute : list float -> Z -> float -> Z -> Z -> float.
Variable flucMFDFAForwBackwCompute : list float -> Z -> float -> Z -> Z -> float.
Variable np_log : float -> float.
Variable np_polyfit1 : list float -> list float -> exn + (float * float).
Variable format_2f : float -> string.
Variable can_allocate : Z -> bool.

#[local] Abbreviation fitFlucVec := (fitFlucVec np_log np_polyfit1 format_2f).
#[local] Abbreviation reachable :=
  (reachable flucMFDFAForwCompute flucMFDFAForwBackwCompute np_log np_polyfit1 format_2f
             can_allocate).

(** A computed state, with its arrays named. *)
Lemma computed_arrays (s : MFDFA) (ns : list Z) (qs : list float) (Fm : list (list float)) :
  (exists nMin nMax qs' Fm', computed s nMin nMax qs' Fm') ->
  n s = Some ns -> qList s = Some qs -> F s = Some Fm ->
  exists nMin nMax,
    computed s nMin nMax qs Fm /\ ns = np_arange nMin (nMax + 1) (nStep s).
Proof.
  intros (nMin & nMax & qs' & Fm' & Hc) Hn Hq HF.
  pose proof (computed_n _ _ _ _ _ Hc) as Hn'.
  pose proof (computed_qList _ _ _ _ _ Hc) as Hq'.
  pose proof (computed_F _ _ _ _ _ Hc) as HF'.
  assert (qs' = qs) by congruence. assert (Fm' = Fm) by congruence. subst qs' Fm'.
  exists nMin, nMax. split; [exact Hc | congruence].
Qed.


(** X12.  [fitFlucVec] zeroes [listH] before the loop and fills it row by
    row, so a fit that passes the range checks and then fails inside
    [np.polyfit] does not leave the object as it was: [listH] holds the
    slopes of the rows fitted before the failing one, followed by zeros, and
    the slopes of an earlier fit are gone. *)
Theorem X12_failed_fit_overwrites_slopes (s : MFDFA) (Hreach : reachable s)
        (Hflag : isComputed s = true) (nStart nEnd : Z) (base : float) (verbose : bool)
        (ns : list Z) (qs : list float) (Fm : list (list float))
        (Hn : n s = Some ns) (Hq : qList s = Some qs) (HF : F s = Some Fm)
        (Hv : valid_limits ns (effective_nStart ns nStart) (effective_nEnd ns nEnd) = true)
        (e : exn) (Hfail : result (fitFlucVec nStart nEnd base verbose s) = inl e) :
  (length (map_exn_prefix (fit_row np_log np_polyfit1 base (effective_nStart ns nStart)
                                   (effective_nEnd ns nEnd) ns) Fm) < length qs)%nat /\
  listH (final (fitFlucVec nStart nEnd base verbose s))
  = Some (map fst (map_exn_prefix (fit_row np_log np_polyfit1 base
                                           (effective_nStart ns nStart)
                                           (effective_nEnd ns nEnd) ns) Fm)
          ++ np_zeros (length qs
                       - length (map_exn_prefix
                                   (fit_row np_log np_polyfit1 base
                                            (effective_nStart ns nStart)
                                            (effective_nEnd ns nEnd) ns) Fm))).
Proof.
  assert (Hne : ns <> []).
  { apply valid_limits_iff in Hv. destruct Hv as (_ & _ & _ & Hin & _).
    intros ->. exact Hin. }
  destruct (computed_arrays s ns qs Fm (scaled_computed _ _ _ _ _ _ s ns Hreach Hflag Hn Hne)
              Hn Hq HF) as (nMin & nMax & Hc & ->).
  rewrite (fitFlucVec_outcome np_log np_polyfit1 format_2f s nMin nMax qs Fm Hc
             nStart nEnd base verbose Hv) in *.
  cbn [result final listH set_listH] in *.
  split; [| reflexivity].
  destruct (map_exn _ Fm) as [e' | ps] eqn:Hps; [| discriminate].
  rewrite <- (computed_rows _ _ _ _ _ Hc). eapply map_exn_prefix_failure; eassumption.
Qed.

Lemma combine_fst_snd {A B} (l : list (A * B)) : combine (map fst l) (map snd l) = l.
Proof. induction l as [| [x y] l IH]; simpl; [reflexivity | now rewrite IH]. Qed.

(** X13.  [verbose] only adds printed lines.  In every state of a session
    the result and the object left behind are the same with [verbose] on and
    off; with [verbose] off a computed object prints nothing; with [verbose]
    on a successful fit prints 'Fit limits: [a, b]' for the limits a, b that
    [nStart], [nEnd] stand for, then for each q-order in turn the line
    'Fit result for q = ...: H intercept = ..., H = ...' with that q-order,
    the intercept and the slope returned for it, each with two decimals. *)
Theorem X13_verbose_only_prints (s : MFDFA) (Hreach : reachable s)
        (nStart nEnd : Z) (base : float) :
  result (fitFlucVec nStart nEnd base true s) = result (fitFlucVec nStart nEnd base false s) /\
  final (fitFlucVec nStart nEnd base true s) = final (fitFlucVec nStart nEnd base false s) /\
  (isComputed s = true -> printed (fitFlucVec nStart nEnd base false s) = []) /\
  (forall ns qs H I,
      n s = Some ns -> qList s = Some qs ->
      result (fitFlucVec nStart nEnd base true s) = inr (Some (H, I)) ->
      printed (fitFlucVec nStart nEnd base true s)
      = msg_fit_limits (effective_nStart ns nStart) (effective_nEnd ns nEnd)
        :: zip_with (fun q p => msg_fit_result format_2f q (snd p) (fst p))
                    qs (combine H I)).
Proof.
  destruct (isComputed s) eqn:Hflag.
  2:{ rewrite !(fitFlucVec_not_computed np_log np_polyfit1 format_2f _ _ _ _ _ Hflag).
      destruct (in_c_int nStart && in_c_int nEnd);
        repeat split; intros; discriminate. }
  destruct (reachable_invariant _ _ _ _ _ _ s Hreach) as [_ Hinv]. rewrite Hflag in Hinv.
  destruct Hinv as [(nMin & nMax & qs & Fm & Hc & _) | (qs & Hc)].
  2:{ destruct (fitFlucVec_no_scale np_log np_polyfit1 format_2f nStart nEnd s Hflag
                  (empty_n _ _ Hc)) as [e He].
      rewrite !He. repeat split; intros; discriminate. }
  destruct (valid_limits (np_arange nMin (nMax + 1) (nStep s))
              (effective_nStart (np_arange nMin (nMax + 1) (nStep s)) nStart)
              (effective_nEnd (np_arange nMin (nMax + 1) (nStep s)) nEnd)) eqn:Hv.
  - rewrite !(fitFlucVec_outcome np_log np_polyfit1 format_2f s nMin nMax qs Fm Hc
                nStart nEnd base _ Hv).
    cbn [result final printed].
    split; [reflexivity |]. split; [reflexivity |]. split; [reflexivity |].
    intros ns qs' H I Hn Hq Hr.
    assert (ns = np_arange nMin (nMax + 1) (nStep s))
      by (pose proof (computed_n _ _ _ _ _ Hc); congruence).
    assert (qs' = qs) by (pose proof (computed_qList _ _ _ _ _ Hc); congruence).
    subst ns qs'.
    destruct (map_exn _ Fm) as [e | ps] eqn:Hps; [discriminate |].
    rewrite (map_exn_prefix_success _ _ _ Hps).
    assert (HH : H = map fst ps) by congruence.
    assert (HI : I = map snd ps) by congruence.
    rewrite HH, HI, combine_fst_snd. reflexivity.
  - destruct (in_c_int nStart && in_c_int nEnd) eqn:Hint.
    + rewrite !(fitFlucVec_checks np_log np_polyfit1 format_2f s nMin nMax qs Fm Hc
                  nStart nEnd base _ Hint Hv).
      cbn [result final printed]. repeat split. intros; discriminate.
    + rewrite !fitFlucVec_run, Hint. repeat split. intros; discriminate.
Qed.

End FitEdges.

(** ** The constructor on gaps, a single q-order *)

(** X14.  The constructor closes the gaps the NaNs leave: the stored series
    of a concatenation is the concatenation of the stored series, a NaN
    between two stretches leaves no trace, an input without NaN is stored as
    it is, and building an object from a stored series gives the same
    object. *)
Theorem X14_constructor_closes_gaps (a b : list float) :
  tsVec (MFDFA_new (a ++ b)) = tsVec (MFDFA_new a) ++ tsVec (MFDFA_new b) /\
  MFDFA_new (a ++ nan :: b) = MFDFA_new (a ++ b) /\
  (Forall (fun x => np_isnan x = false) a -> tsVec (MFDFA_new a) = a) /\
  MFDFA_new (tsVec (MFDFA_new a)) = MFDFA_new a.
Proof.
  unfold MFDFA_new. rewrite !MFDFA_call_run. cbn [final tsVec].
  assert (Hclean : forall l, Forall (fun x => np_isnan x = false) l ->
                             filter (fun x => negb (np_isnan x)) l = l).
  { intros l Hl. apply filter_all. intros x Hx.
    rewrite Forall_forall in Hl. now rewrite (Hl x Hx). }
  split; [apply filter_app |].
  split; [now rewrite !filter_app |].
  split; [apply Hclean |].
  f_equal. apply Hclean. apply Forall_forall. intros x Hx.
  apply filter_In in Hx. destruct Hx as [_ Hx]. now apply negb_true_iff in Hx.
Qed.

Section SingleOrder.

Variable flucMFDFAForwCompute : list float -> Z -> float -> Z -> Z -> float.
Variable flucMFDFAForwBackwCompute : list float -> Z -> float -> Z -> Z -> float.
Variable np_log : float -> float.
Variable np_polyfit1 : list float -> list float -> exn + (float * float).
Variable format_2f : float -> string.
Variable can_allocate : Z -> bool.

#[local] Abbreviation computeFlucVec :=
  (computeFlucVec flucMFDFAForwCompute flucMFDFAForwBackwCompute can_allocate).
#[local] Abbreviation fitFlucVec := (fitFlucVec np_log np_polyfit1 format_2f).

Lemma computeMultifractalSpectrum_few (s : MFDFA) (qs : list float) :
  isComputed s = true -> qList s = Some qs -> (length qs < 2)%nat ->
  computeMultifractalSpectrum s = Outcome (inl (ValueError msg_q_moments)) s [].
Proof.
  intros Hflag Hq Hlen. unfold computeMultifractalSpectrum.
  rewrite bind_get_run, Hflag, Hq. unfold need. rewrite bind_ret_run.
  destruct (Z.ltb_spec 1 (Z.of_nat (length qs))); [lia | reflexivity].
Qed.

(** X15.  A q-order passed as a single float is stored as a one-element
    array, and the matrix has one row; from then on, whatever fits are made,
    [computeMultifractalSpectrum] raises [ValueError] and leaves the object
    as it was: a spectrum needs a call of [computeFlucVec] with a list or an
    array of at least two q-orders. *)
Theorem X15_single_q_order_has_no_spectrum (x : float) (nMin nMax polOrd nStep : Z)
        (revSeg : bool) (s : MFDFA)
        (Hrun : ~ raises (computeFlucVec nMin (PyFloat x) nMax polOrd nStep revSeg s)) :
  let s1 := final (computeFlucVec nMin (PyFloat x) nMax polOrd nStep revSeg s) in
  qList s1 = Some [x] /\
  (exists row, F s1 = Some [row]) /\
  computeMultifractalSpectrum s1 = Outcome (inl (ValueError msg_q_moments)) s1 [] /\
  forall nStart nEnd base verbose,
    let s2 := final (fitFlucVec nStart nEnd base verbose s1) in
    computeMultifractalSpectrum s2 = Outcome (inl (ValueError msg_q_moments)) s2 [].
Proof.
  destruct (computeFlucVec_cases flucMFDFAForwCompute flucMFDFAForwBackwCompute
              can_allocate nMin (PyFloat x) nMax polOrd nStep revSeg s)
    as [(e & _ & He) | (ql & Hacc & _ & _ & He)].
  { exfalso. apply Hrun. exists e. now rewrite He. }
  destruct (enough_memory _ _ _ _).
  2:{ exfalso. apply Hrun. exists MemoryError. now rewrite He. }
  cbn [accepted_qList] in Hacc. injection Hacc as <-.
  rewrite He. cbn [final]. cbn zeta.
  split; [reflexivity |].
  split; [open_fluc_matrix; cbn [map qList F]; eexists; reflexivity |].
  split; [apply (computeMultifractalSpectrum_few _ [x]); [reflexivity | reflexivity | simpl; lia] |].
  intros nStart nEnd base verbose.
  destruct (fitFlucVec_keeps np_log np_polyfit1 format_2f nStart nEnd base verbose
              (mkMFDFA (Some (np_arange nMin (c_int_add (effective_nMax s nMax) 1) nStep))
                 (tsVec s)
                 (Some (fluc_matrix flucMFDFAForwCompute flucMFDFAForwBackwCompute revSeg
                          (tsVec s)
                          (np_arange nMin (c_int_add (effective_nMax s nMax) 1) nStep) [x]
                          (tsLen_of s) polOrd))
                 (listH s) (Some [x]) nStep true))
    as (_ & _ & _ & Hq & _ & Hflag).
  apply (computeMultifractalSpectrum_few _ [x]); [exact Hflag | exact Hq | simpl; lia].
Qed.

End SingleOrder.

(** ** The further properties on the example sessions *)

(** On the fitted example session: with memory for 64 bytes per array the
    copy of the 32 values cannot be made, and the new q-orders and step stay
    in the object; nMin = 2 is refused and nothing is changed. *)
Lemma X1_failure_witness :
  final (computeFlucVec demo_fluc demo_fluc tight_alloc 4 (PyList [2%float; 3%float])
                        8 1 2 false demo_fitted)
  = set_nStep 2 (set_qList [2%float; 3%float] demo_fitted) /\
  final (computeFlucVec demo_fluc demo_fluc tight_alloc 2 (PyList [2%float; 3%float])
                        8 1 2 false demo_fitted)
  = demo_fitted.
Proof.
  split.
  - assert (Hr : result (computeFlucVec demo_fluc demo_fluc tight_alloc 4
                           (PyList [2%float; 3%float]) 8 1 2 false demo_fitted)
                 = inl MemoryError) by (vm_compute; reflexivity).
    destruct (X1_computeFlucVec_failure demo_fluc demo_fluc tight_alloc 4
                (PyList [2%float; 3%float]) 8 1 2 false demo_fitted MemoryError Hr)
      as (_ & _ & Hm).
    destruct (Hm eq_refl) as (ql & Hq & Hf). injection Hq as <-. exact Hf.
  - assert (Hr : result (computeFlucVec demo_fluc demo_fluc tight_alloc 2
                           (PyList [2%float; 3%float]) 8 1 2 false demo_fitted)
                 = inl (ValueError msg_three)) by (vm_compute; reflexivity).
    apply (proj1 (proj2 (X1_computeFlucVec_failure demo_fluc demo_fluc tight_alloc 2
                           (PyList [2%float; 3%float]) 8 1 2 false demo_fitted
                           (ValueError msg_three) Hr))).
    discriminate.
Defined.

(** Three q-orders over the windows 4, 6, 8 of a series of 32 values. *)
Lemma X2_matrix_witness :
  exists ql,
    accepted_qList (PyList [1%float; 2%float; 4%float]) = Some ql /\
    length [[4%float; 6%float; 8%float]; [4%float; 6%float; 8%float];
            [4%float; 6%float; 8%float]] = length ql.
Proof.
  assert (Hrun : result (computeFlucVec demo_fluc demo_fluc demo_alloc 4
                           (PyList [1%float; 2%float; 4%float]) 9 1 2 false
                           (MFDFA_new (ramp 32)))
                 = inr ([4; 6; 8],
                        [[4%float; 6%float; 8%float]; [4%float; 6%float; 8%float];
                         [4%float; 6%float; 8%float]]))
    by (vm_compute; reflexivity).
  destruct (X2_fluctuation_matrix demo_fluc demo_fluc demo_alloc 4
              (PyList [1%float; 2%float; 4%float]) 9 1 2 false (MFDFA_new (ramp 32))
              _ _ Hrun) as (ql & Hacc & _ & _ & Hrows & _).
  exists ql. split; assumption.
Defined.

(** A fitted session and a fresh object on the same series compute the same. *)
Lemma X3_overwrite_witness :
  result (computeFlucVec demo_fluc demo_fluc demo_alloc 4 (PyList [2%float; 3%float])
                         8 1 1 false demo_fitted)
  = result (computeFlucVec demo_fluc demo_fluc demo_alloc 4 (PyList [2%float; 3%float])
                           8 1 1 false (MFDFA_new (ramp 32))).
Proof.
  assert (Hseries : tsVec demo_fitted = tsVec (MFDFA_new (ramp 32)))
    by (vm_compute; reflexivity).
  exact (proj1 (X3_computeFlucVec_overwrites demo_fluc demo_fluc demo_alloc 4
                  (PyList [2%float; 3%float]) 8 1 1 false demo_fitted
                  (MFDFA_new (ramp 32)) Hseries)).
Defined.

(** Three slopes kept beside two new q-orders: the mass exponents cannot be
    formed. *)
Lemma X4_stale_fit_witness :
  listH demo_recomputed = Some [1%float; 1%float; 1%float] /\
  qList demo_recomputed = Some [2%float; 3%float] /\
  result (computeMassExponents demo_recomputed) = inl BroadcastError.
Proof.
  assert (Hfit : result (fitFlucVec demo_log demo_polyfit1 demo_format_2f (-999) (-999)
                                    logBase_default false demo_session)
                 = inr (Some ([1%float; 1%float; 1%float], [0%float; 0%float; 0%float])))
    by (vm_compute; reflexivity).
  assert (Hcomp : ~ raises (computeFlucVec demo_fluc demo_fluc demo_alloc 4
                              (PyList [2%float; 3%float]) 8 1 1 false
                              (final (fitFlucVec demo_log demo_polyfit1 demo_format_2f
                                                 (-999) (-999) logBase_default false
                                                 demo_session))))
    by (intros [e He]; vm_compute in He; discriminate).
  destruct (X4_stale_fit_after_recompute demo_fluc demo_fluc demo_log demo_polyfit1
              demo_format_2f demo_alloc demo_session demo_session_is_reachable (-999) (-999)
              logBase_default false _ _ Hfit 4 (PyList [2%float; 3%float]) 8 1 1 false
              Hcomp) as (ql & Hacc & HH & Hq & _ & _ & _ & Hb).
  injection Hacc as <-. unfold demo_recomputed, demo_fitted.
  split; [exact HH |]. split; [exact Hq |].
  apply Hb; simpl; lia.
Defined.

(** The fitted example session holds a series without NaN. *)
Lemma X7_invariant_witness :
  Forall (fun x => np_isnan x = false) (tsVec demo_fitted).
Proof.
  exact (proj1 (X7_session_invariant demo_fluc demo_fluc demo_log demo_polyfit1
                  demo_format_2f demo_alloc demo_fitted demo_fitted_is_reachable)).
Defined.

(** Fifteen values are too few when [nMax] is left out. *)
Lemma X9_short_series_witness :
  exists msg,
    computeFlucVec demo_fluc demo_fluc demo_alloc 3 (PyFloat 2%float) (-999) 1 1 false
                   (MFDFA_new (ramp 15))
    = Outcome (inl (ValueError msg)) (MFDFA_new (ramp 15)) [].
Proof.
  apply (X9_series_too_short demo_fluc demo_fluc demo_alloc 3 (PyFloat 2%float) (-999) 1 1
           false (MFDFA_new (ramp 15))).
  vm_compute. reflexivity.
Defined.

(** With nMin = 4, nMax = 9 and nStep = 2 the largest window is 8. *)
Lemma X10_largest_scale_witness :
  last [4; 6; 8] 0
  = effective_nMax (MFDFA_new (ramp 32)) 9
    - (effective_nMax (MFDFA_new (ramp 32)) 9 - 4) mod 2.
Proof.
  assert (Hrun : result (computeFlucVec demo_fluc demo_fluc demo_alloc 4 (PyList [1%float])
                                        9 1 2 false (MFDFA_new (ramp 32)))
                 = inr ([4; 6; 8], [[4%float; 6%float; 8%float]]))
    by (vm_compute; reflexivity).
  assert (Hint : effective_nMax (MFDFA_new (ramp 32)) 9 < INT_MAX)
    by (vm_compute; reflexivity).
  exact (proj1 (proj2 (proj1 (X10_largest_scale demo_fluc demo_fluc demo_alloc 4
                                (PyList [1%float]) 9 1 2 false (MFDFA_new (ramp 32))
                                _ _ Hrun) Hint))).
Defined.


Lemma demo_picky_fitted_is_reachable :
  reachable demo_fluc demo_fluc demo_log picky_polyfit1 demo_format_2f demo_alloc
            demo_picky_fitted.
Proof.
  unfold demo_picky_fitted, demo_session.
  apply reach_fitFlucVec, reach_computeFlucVec; [apply reach_new |].
  intros Hm. vm_compute in Hm. discriminate.
Qed.

(** A fit over the windows 4 and 5 that [np.polyfit] refuses wipes the
    slopes of the fit before. *)
Lemma X12_failed_fit_witness :
  listH demo_picky_fitted = Some [1%float; 1%float; 1%float] /\
  listH (final (fitFlucVec demo_log picky_polyfit1 demo_format_2f 4 5 logBase_default
                           false demo_picky_fitted))
  = Some [0%float; 0%float; 0%float].
Proof.
  split; [vm_compute; reflexivity |].
  assert (Hflag : isComputed demo_picky_fitted = true) by (vm_compute; reflexivity).
  assert (Hn : n demo_picky_fitted = Some [4; 5; 6; 7; 8]) by (vm_compute; reflexivity).
  assert (Hq : qList demo_picky_fitted = Some [1%float; 2%float; 4%float])
    by (vm_compute; reflexivity).
  assert (HF : F demo_picky_fitted
               = Some [[4%float; 5%float; 6%float; 7%float; 8%float];
                       [4%float; 5%float; 6%float; 7%float; 8%float];
                       [4%float; 5%float; 6%float; 7%float; 8%float]])
    by (vm_compute; reflexivity).
  assert (Hv : valid_limits [4; 5; 6; 7; 8] (effective_nStart [4; 5; 6; 7; 8] 4)
                            (effective_nEnd [4; 5; 6; 7; 8] 5) = true)
    by (vm_compute; reflexivity).
  assert (Hfail : result (fitFlucVec demo_log picky_polyfit1 demo_format_2f 4 5
                                     logBase_default false demo_picky_fitted)
                  = inl LinAlgError)
    by (vm_compute; reflexivity).
  destruct (X12_failed_fit_overwrites_slopes demo_fluc demo_fluc demo_log picky_polyfit1
              demo_format_2f demo_alloc demo_picky_fitted demo_picky_fitted_is_reachable
              Hflag 4 5 logBase_default false _ _ _ Hn Hq HF Hv _ Hfail) as [_ HH].
  rewrite HH. vm_compute. reflexivity.
Defined.

(** A verbose default fit of the example session prints the limits 4 and 8
    and one line per q-order. *)
Lemma X13_verbose_witness :
  printed (fitFlucVec demo_log demo_polyfit1 demo_format_2f (-999) (-999)
                      logBase_default true demo_session)
  = msg_fit_limits (effective_nStart [4; 5; 6; 7; 8] (-999))
                   (effective_nEnd [4; 5; 6; 7; 8] (-999))
    :: zip_with (fun q p => msg_fit_result demo_format_2f q (snd p) (fst p))
                [1%float; 2%float; 4%float]
                (combine [1%float; 1%float; 1%float] [0%float; 0%float; 0%float]).
Proof.
  assert (Hn : n demo_session = Some [4; 5; 6; 7; 8]) by (vm_compute; reflexivity).
  assert (Hq : qList demo_session = Some [1%float; 2%float; 4%float])
    by (vm_compute; reflexivity).
  assert (Hr : result (fitFlucVec demo_log demo_polyfit1 demo_format_2f (-999) (-999)
                                  logBase_default true demo_session)
               = inr (Some ([1%float; 1%float; 1%float], [0%float; 0%float; 0%float])))
    by (vm_compute; reflexivity).
  destruct (X13_verbose_only_prints demo_fluc demo_fluc demo_log demo_polyfit1
              demo_format_2f demo_alloc demo_session demo_session_is_reachable (-999) (-999)
              logBase_default) as (_ & _ & _ & Hp).
  exact (Hp _ _ _ _ Hn Hq Hr).
Defined.

(** The session computed for the single q-order 2 has no spectrum. *)
Lemma X15_single_q_witness :
  computeMultifractalSpectrum demo_single_q
  = Outcome (inl (ValueError msg_q_moments)) demo_single_q [].
Proof.
  assert (Hrun : ~ raises (computeFlucVec demo_fluc demo_fluc demo_alloc 4 (PyFloat 2%float)
                                          8 1 1 false (MFDFA_new (ramp 32))))
    by (intros [e He]; vm_compute in He; discriminate).
  pose proof (X15_single_q_order_has_no_spectrum demo_fluc demo_fluc demo_log
                demo_polyfit1 demo_format_2f demo_alloc 2%float 4 8 1 1 false
                (MFDFA_new (ramp 32)) Hrun) as H.
  cbv zeta in H. destruct H as (_ & _ & H & _). unfold demo_single_q. exact H.
Defined.
